(** * HC-SR04 ultrasonic range finder on the Raspberry Pi Pico

    A shallow embedding of [src/hc-sr04.c].  The driver is an interactive
    program: it talks to the GPIO block, the microsecond timer and the
    console, and its [main] never returns.  It is therefore written as an
    interaction tree over the calls it makes into the Pico SDK, and run
    against a scripted mock of the board: the echo samples and the timer
    values the calls will meet are the inputs, and the mock records what
    the driver does.

    Contents: machine integers and IEEE-754 arithmetic as the C expressions
    use them; the SDK calls as events; the driver; the mock and its
    executor; the scenarios a call can meet.  Then the lemmas: running trees
    on the mock, the polling loops, a whole call, floating point, the main
    loop, and the properties of the specification. *)

From Stdlib Require Import ZArith Bool List String Ascii Lia QArith Qabs.
From Stdlib Require Import DecimalString.
From Stdlib Require Import Floats.SpecFloat.
From ITree Require Import ITree ITreeFacts Eq.Shallow Events.State Events.StateFacts.
Import ListNotations.
Import ITreeNotations.

Local Open Scope Z_scope.
Local Open Scope itree_scope.

(* ===================================================================== *)
(** ** Machine integers *)
(* ===================================================================== *)

(** [uint32_t] subtraction: the difference modulo 2^32. *)
Definition sub_u32 (a b : Z) : Z := (a - b) mod 2 ^ 32.

(** Reinterpretation of a 64-bit pattern as [int64_t] (two's complement). *)
Definition to_int64 (z : Z) : Z := (z + 2 ^ 63) mod 2 ^ 64 - 2 ^ 63.

(** SDK inline helper: [(int64_t)(to_us_since_boot(to) - to_us_since_boot(from))],
    the subtraction being on [uint64_t]. *)
Definition absolute_time_diff_us (from to : Z) : Z := to_int64 (to - from).

(* ===================================================================== *)
(** ** IEEE-754 arithmetic: [float] is binary32, [double] is binary64 *)
(* ===================================================================== *)

Module IEEE.

(** Rounds a finite value into the format ([prec], [emax]), to nearest, ties
    to even; zeros, infinities and NaN pass through. *)
Definition round_to (prec emax : Z) (x : spec_float) : spec_float :=
  match x with
  | S754_finite s m e => binary_normalize prec emax (cond_Zopp s (Zpos m)) e s
  | _ => x
  end.

(** Integer to [double] conversion. *)
Definition double_of_int (z : Z) : spec_float := binary_normalize 53 1024 z 0 false.

(** The conversion [double -> float] of an assignment or a [return]. *)
Definition float_of_double : spec_float -> spec_float := round_to 24 128.

(** The promotion [float -> double] of the usual arithmetic conversions. *)
Definition double_of_float : spec_float -> spec_float := round_to 53 1024.

Definition ddiv : spec_float -> spec_float -> spec_float := SFdiv 53 1024.
Definition dlt : spec_float -> spec_float -> bool := SFltb.
Definition dle : spec_float -> spec_float -> bool := SFleb.

(** The [double] literals of the source. *)
Definition d58 : spec_float := double_of_int 58.
Definition d1 : spec_float := double_of_int 1.
Definition d400 : spec_float := double_of_int 400.
Definition dminus1 : spec_float := SFopp d1.

(** Exact rational value of a float (0 for infinities and NaN). *)
Definition to_Q (x : spec_float) : Q :=
  match x with
  | S754_finite s m e =>
      let n := cond_Zopp s (Zpos m) in
      if (0 <=? e)%Z then inject_Z (n * 2 ^ e) else Qmake n (Z.to_pos (2 ^ (- e)))
  | _ => 0%Q
  end.

End IEEE.

Import IEEE.

(* ===================================================================== *)
(** ** The SDK calls the driver makes *)
(* ===================================================================== *)

(** One constructor per SDK entry point used by the source; the index is the
    C return type.  [printf] carries the format and the one floating
    argument the source ever passes (promoted to [double]). *)
Variant hwE : Type -> Type :=
| stdio_init_all : hwE bool
| gpio_init (gpio : Z) : hwE unit
| gpio_set_dir (gpio : Z) (out : bool) : hwE unit
| gpio_put (gpio : Z) (value : bool) : hwE unit
| gpio_get (gpio : Z) : hwE bool
| sleep_us (us : Z) : hwE unit
| sleep_ms (ms : Z) : hwE unit
| time_us_32 : hwE Z
| get_absolute_time : hwE Z
| printf (format : string) (arg : option spec_float) : hwE unit.

(** The line feed written [\n] in the C string literals. *)
Definition LF : string := String (ascii_of_nat 10) EmptyString.

Definition GPIO_OUT : bool := true.
Definition GPIO_IN : bool := false.

(* ===================================================================== *)
(** ** The driver, [src/hc-sr04.c] *)
(* ===================================================================== *)

Definition TRIG_PIN : Z := 17.
Definition ECHO_PIN : Z := 16.

Definition write_trig_pin (state : bool) : itree hwE unit :=
  ITree.trigger (gpio_put TRIG_PIN state).

(** The value of [return -1.0;] in a function returning [float]. *)
Definition minus_one : spec_float := float_of_double dminus1.

(** One polling loop of the source,
    [while (cond(gpio_get(ECHO_PIN))) { if ((time_us_32() - start_time) > timeout) return -1.0; }].
    The loop leaves with [Some v] for the [return v] inside its body and with
    [None] when its condition fails. *)
Definition poll_echo (cond : bool -> bool) (start_time timeout : Z)
  : itree hwE (option spec_float) :=
  ITree.iter (fun _ : unit =>
    level <- ITree.trigger (gpio_get ECHO_PIN) ;;
    if cond level then
      now <- ITree.trigger time_us_32 ;;
      if sub_u32 now start_time >? timeout
      then Ret (inr (Some minus_one))
      else Ret (inl tt)
    else Ret (inr None)) tt.

(** The conversion and range check at the end of [get_reading_sensor]. *)
Definition distance_of_duration (duration : Z) : spec_float :=
  float_of_double (ddiv (double_of_int duration) d58).

Definition get_reading_sensor : itree hwE spec_float :=
  let timeout : Z := 38000 in
  write_trig_pin false ;;
  ITree.trigger (sleep_us 2) ;;
  write_trig_pin true ;;
  ITree.trigger (sleep_us 10) ;;
  write_trig_pin false ;;
  start_time <- ITree.trigger time_us_32 ;;
  r <- ITree.iter (fun _ : unit =>
         level <- ITree.trigger (gpio_get ECHO_PIN) ;;
         if negb level then
           now <- ITree.trigger time_us_32 ;;
           if sub_u32 now start_time >? timeout
           then Ret (inr (Some minus_one))
           else Ret (inl tt)
         else Ret (inr None)) tt ;;
  match r with
  | Some v => Ret v
  | None =>
    start <- ITree.trigger get_absolute_time ;;
    start_time <- ITree.trigger time_us_32 ;;
    r <- ITree.iter (fun _ : unit =>
           level <- ITree.trigger (gpio_get ECHO_PIN) ;;
           if (level : bool) then
             now <- ITree.trigger time_us_32 ;;
             if sub_u32 now start_time >? timeout
             then Ret (inr (Some minus_one))
             else Ret (inl tt)
           else Ret (inr None)) tt ;;
    match r with
    | Some v => Ret v
    | None =>
      end_ <- ITree.trigger get_absolute_time ;;
      let duration := absolute_time_diff_us start end_ in
      let distance := float_of_double (ddiv (double_of_int duration) d58) in
      if dlt (double_of_float distance) d1 || dlt d400 (double_of_float distance)
      then Ret minus_one
      else Ret distance
    end
  end.

(** The body of [while (true)] in [main]. *)
Definition main_cycle : itree hwE unit :=
  distance <- get_reading_sensor ;;
  ITree.trigger (printf ("Distance: %.2f cm" ++ LF) (Some (double_of_float distance))) ;;
  ITree.trigger (sleep_ms 1000).

Definition main_loop : itree hwE Z := ITree.forever main_cycle.

Definition main : itree hwE Z :=
  ITree.trigger stdio_init_all ;;
  ITree.trigger (sleep_ms 200) ;;
  ITree.trigger (gpio_init TRIG_PIN) ;;
  ITree.trigger (gpio_set_dir TRIG_PIN GPIO_OUT) ;;
  ITree.trigger (gpio_init ECHO_PIN) ;;
  ITree.trigger (gpio_set_dir ECHO_PIN GPIO_IN) ;;
  ITree.trigger (printf ("Ultrasonic Sensor HC-SR04" ++ LF) None) ;;
  main_loop.

(** The stages of [get_reading_sensor], named so that the lemmas can speak
    of them one at a time: what follows the second loop, what follows the
    first loop, and what follows the trigger pulse.
    [get_reading_sensor_stages] below shows they are the function. *)
Definition after_fall (start : Z) : itree hwE spec_float :=
  end_ <- ITree.trigger get_absolute_time ;;
  let duration := absolute_time_diff_us start end_ in
  let distance := float_of_double (ddiv (double_of_int duration) d58) in
  if dlt (double_of_float distance) d1 || dlt d400 (double_of_float distance)
  then Ret minus_one
  else Ret distance.

Definition after_rise : itree hwE spec_float :=
  start <- ITree.trigger get_absolute_time ;;
  start_time <- ITree.trigger time_us_32 ;;
  r <- poll_echo (fun level => level) start_time 38000 ;;
  match r with
  | Some v => Ret v
  | None => after_fall start
  end.

Definition after_trigger : itree hwE spec_float :=
  start_time <- ITree.trigger time_us_32 ;;
  r <- poll_echo negb start_time 38000 ;;
  match r with
  | Some v => Ret v
  | None => after_rise
  end.

(* ===================================================================== *)
(** ** A scripted mock of the board *)
(* ===================================================================== *)

Module Mock.

(** What the console shows for a [double] under [%.2f]: the exact value
    rounded to hundredths, ties to even. *)
Definition hundredths (m : positive) (e : Z) : Z :=
  if 0 <=? e then Zpos m * 2 ^ e * 100
  else
    let den := 2 ^ (- e) in
    let q := (Zpos m * 100) / den in
    let r := (Zpos m * 100) mod den in
    match 2 * r ?= den with
    | Lt => q
    | Gt => q + 1
    | Eq => if Z.even q then q else q + 1
    end.

Definition decimal (z : Z) : string := NilZero.string_of_uint (N.to_uint (Z.to_N z)).

Definition two_digits (z : Z) : string := decimal (z / 10) ++ decimal (z mod 10).

Definition sign_text (s : bool) : string := if s then "-" else "".

Definition fixed2 (x : spec_float) : string :=
  match x with
  | S754_nan => "nan"
  | S754_infinity s => sign_text s ++ "inf"
  | S754_zero s => sign_text s ++ "0.00"
  | S754_finite s m e =>
      let h := hundredths m e in
      sign_text s ++ decimal (h / 100) ++ "." ++ two_digits (h mod 100)
  end.

(** The text [printf format arg] puts on the console: every [%.2f] in the
    format is replaced by the rendering of the argument. *)
Fixpoint render (format : string) (arg : option spec_float) : string :=
  match format with
  | String "%" (String "." (String "2" (String "f" rest))) =>
      match arg with
      | Some x => fixed2 x ++ render rest arg
      | None => render rest arg
      end
  | String c rest => String c (render rest arg)
  | EmptyString => EmptyString
  end.

(** Calls that act on the outside world, as the board sees them. *)
Variant action :=
| Stdio_init
| Gpio_init (gpio : Z)
| Gpio_dir (gpio : Z) (out : bool)
| Gpio_put (gpio : Z) (value : bool)
| Sleep_us (us : Z)
| Sleep_ms (ms : Z)
| Console (text : string).

(** The board.  The two scripts are the test's inputs: the level the
    [k]-th read of a pin returns, and the value of the 64-bit microsecond
    timer at its [k]-th access ([time_us_32] hands out its low 32 bits,
    [get_absolute_time] all 64).  The rest is bookkeeping: how far each
    script has been consumed, the timestamps captured by
    [get_absolute_time], and the actions performed, oldest first. *)
Record board := {
  pin_script : Z -> nat -> bool;
  timer_script : nat -> Z;
  reads : nat;
  ticks : nat;
  captured : list Z;
  actions : list action
}.

Definition act (a : action) (w : board) : board :=
  {| pin_script := pin_script w; timer_script := timer_script w;
     reads := reads w; ticks := ticks w; captured := captured w;
     actions := actions w ++ [a] |}.

Definition read_pin (gpio : Z) (w : board) : bool * board :=
  (pin_script w gpio (reads w),
   {| pin_script := pin_script w; timer_script := timer_script w;
      reads := S (reads w); ticks := ticks w; captured := captured w;
      actions := actions w |}).

Definition read_timer_32 (w : board) : Z * board :=
  (timer_script w (ticks w) mod 2 ^ 32,
   {| pin_script := pin_script w; timer_script := timer_script w;
      reads := reads w; ticks := S (ticks w); captured := captured w;
      actions := actions w |}).

Definition read_timer_64 (w : board) : Z * board :=
  let t := timer_script w (ticks w) mod 2 ^ 64 in
  (t,
   {| pin_script := pin_script w; timer_script := timer_script w;
      reads := reads w; ticks := S (ticks w); captured := captured w ++ [t];
      actions := actions w |}).

Definition handle {X : Type} (e : hwE X) : board -> X * board :=
  match e in hwE X return board -> X * board with
  | stdio_init_all => fun w => (true, act Stdio_init w)
  | gpio_init p => fun w => (tt, act (Gpio_init p) w)
  | gpio_set_dir p out => fun w => (tt, act (Gpio_dir p out) w)
  | gpio_put p v => fun w => (tt, act (Gpio_put p v) w)
  | gpio_get p => read_pin p
  | sleep_us n => fun w => (tt, act (Sleep_us n) w)
  | sleep_ms n => fun w => (tt, act (Sleep_ms n) w)
  | time_us_32 => read_timer_32
  | get_absolute_time => read_timer_64
  | printf format arg => fun w => (tt, act (Console (render format arg)) w)
  end.

(** The same handler in the form the library's state interpreter takes. *)
Definition board_handler : hwE ~> Monads.stateT board (itree void1) :=
  fun _ e w => Ret (snd (handle e w), fst (handle e w)).

(** How a run stands when the fuel is spent: it has returned, or it is
    still going. *)
Variant outcome (R : Type) :=
| Returned (r : R) (w : board)
| Running (w : board).
Arguments Returned {R} r w.
Arguments Running {R} w.

(** Runs a program on the board for at most [fuel] steps; every node of
    the tree costs one step. *)
Fixpoint exec {R : Type} (fuel : nat) (t : itree hwE R) (w : board) : outcome R :=
  match fuel with
  | O => Running w
  | S fuel' =>
      match observe t with
      | RetF r => Returned r w
      | TauF t' => exec fuel' t' w
      | VisF e k => let (x, w') := handle e w in exec fuel' (k x) w'
      end
  end.

(** [t], started on [w], returns [r] and leaves the board as [w']. *)
Definition returns {R : Type} (t : itree hwE R) (w : board) (r : R) (w' : board) : Prop :=
  exists fuel, exec fuel t w = Returned r w'.

(** [t], started on [w], never returns. *)
Definition diverges {R : Type} (t : itree hwE R) (w : board) : Prop :=
  forall fuel, exists w', exec fuel t w = Running w'.

(** The board at the moment the fuel is spent or the run has returned. *)
Definition board_of {R : Type} (o : outcome R) : board :=
  match o with
  | Returned _ w => w
  | Running w => w
  end.

(** Levels written to one output pin, oldest first. *)
Fixpoint writes_to (gpio : Z) (l : list action) : list bool :=
  match l with
  | Gpio_put p v :: l' => if p =? gpio then v :: writes_to gpio l' else writes_to gpio l'
  | _ :: l' => writes_to gpio l'
  | [] => []
  end.

(** Text put on the console, oldest first. *)
Fixpoint console (l : list action) : list string :=
  match l with
  | Console s :: l' => s :: console l'
  | _ :: l' => console l'
  | [] => []
  end.

(** A board at power-up, the two scripts given as lists (exhausted scripts
    keep returning the default: pin low, timer 0). *)
Definition scripted (echo : list bool) (timer : list Z) : board :=
  {| pin_script := fun _ k => nth k echo false;
     timer_script := fun k => nth k timer 0;
     reads := 0; ticks := 0; captured := []; actions := [] |}.

End Mock.

Import Mock.

(* ===================================================================== *)
(** ** What a test sees of one call to [get_reading_sensor] *)
(* ===================================================================== *)

(** The timeout of the source, [const uint32_t timeout = 38000]. *)
Definition echo_timeout : Z := 38000.

(** Inputs as the call meets them, counted from the state of the board at
    the start of the call: the level found by its [k]-th poll of the echo
    pin, and the timer at its [k]-th access, as 32 and as 64 bits. *)
Definition echo_at (w : board) (k : nat) : bool := pin_script w ECHO_PIN (reads w + k).
Definition us32_at (w : board) (k : nat) : Z := timer_script w (ticks w + k) mod 2 ^ 32.
Definition us64_at (w : board) (k : nat) : Z := timer_script w (ticks w + k) mod 2 ^ 64.

(** [n] polls in a row, from poll [e0] on, find the loop condition true, and
    the timer reads that follow them, from access [t0] on, are within the
    timeout of [start], the reading that armed the loop. *)
Definition keeps_waiting (cond : bool -> bool) (w : board) (e0 t0 : nat) (start : Z) (n : nat)
  : bool :=
  forallb (fun k => cond (echo_at w (e0 + k))
                    && (sub_u32 (us32_at w (t0 + k)) start <=? echo_timeout))
          (seq 0 n).

(** The poll after those finds the loop condition true again, and the timer
    read that follows it is beyond the timeout. *)
Definition times_out (cond : bool -> bool) (w : board) (e0 t0 : nat) (start : Z) (n : nat)
  : bool :=
  keeps_waiting cond w e0 t0 start n
  && cond (echo_at w (e0 + n))
  && (sub_u32 (us32_at w (t0 + n)) start >? echo_timeout).

(** The poll after those finds the loop condition false. *)
Definition sees_edge (cond : bool -> bool) (w : board) (e0 t0 : nat) (start : Z) (n : nat)
  : bool :=
  keeps_waiting cond w e0 t0 start n && negb (cond (echo_at w (e0 + n))).

(** First wait: timer access 0 arms it, then polls and timer reads alternate. *)
Definition no_echo (w : board) (n : nat) : bool :=
  times_out negb w 0 1 (us32_at w 0) n.
Definition echo_rises (w : board) (n1 : nat) : bool :=
  sees_edge negb w 0 1 (us32_at w 0) n1.

(** Second wait, after a rise at poll [n1]: access [n1 + 1] is the start
    timestamp, access [n1 + 2] arms the loop. *)
Definition echo_stuck (w : board) (n1 n2 : nat) : bool :=
  echo_rises w n1
  && times_out (fun b => b) w (n1 + 1) (n1 + 3) (us32_at w (n1 + 2)) n2.
Definition echo_falls (w : board) (n1 n2 : nat) : bool :=
  echo_rises w n1
  && sees_edge (fun b => b) w (n1 + 1) (n1 + 3) (us32_at w (n1 + 2)) n2.

(** The two timestamps of a complete pulse and the duration the source
    computes from them. *)
Definition start_stamp (w : board) (n1 : nat) : Z := us64_at w (n1 + 1).
Definition end_stamp (w : board) (n1 n2 : nat) : Z := us64_at w (n1 + n2 + 3).
Definition pulse_us (w : board) (n1 n2 : nat) : Z :=
  absolute_time_diff_us (start_stamp w n1) (end_stamp w n1 n2).

(** The range check of the source on a converted distance. *)
Definition out_of_range (distance : spec_float) : bool :=
  dlt (double_of_float distance) d1 || dlt d400 (double_of_float distance).

Definition checked (distance : spec_float) : spec_float :=
  if out_of_range distance then minus_one else distance.

(** The actions of the trigger pulse. *)
Definition trigger_pulse : list action :=
  [Gpio_put TRIG_PIN false; Sleep_us 2; Gpio_put TRIG_PIN true; Sleep_us 10;
   Gpio_put TRIG_PIN false].

(** A board further on: [polls] more pin reads, [stamps] more timer accesses,
    the timestamps [caps] captured and the actions [acts] performed. *)
Definition advance (w : board) (polls stamps : nat) (caps : list Z) (acts : list action) : board :=
  {| pin_script := pin_script w; timer_script := timer_script w;
     reads := reads w + polls; ticks := ticks w + stamps;
     captured := captured w ++ caps; actions := actions w ++ acts |}.

(** The three ways a call can end, told from the scripts alone. *)
Inductive reading (w : board) : spec_float -> board -> Prop :=
| reading_no_echo (n : nat) :
    no_echo w n = true ->
    reading w minus_one (advance w (n + 1) (n + 2) [] trigger_pulse)
| reading_echo_stuck (n1 n2 : nat) :
    echo_stuck w n1 n2 = true ->
    reading w minus_one
            (advance w (n1 + n2 + 2) (n1 + n2 + 4) [start_stamp w n1] trigger_pulse)
| reading_pulse (n1 n2 : nat) :
    echo_falls w n1 n2 = true ->
    reading w (checked (distance_of_duration (pulse_us w n1 n2)))
            (advance w (n1 + n2 + 2) (n1 + n2 + 4)
                     [start_stamp w n1; end_stamp w n1 n2] trigger_pulse).

(** The console line for a reading. *)
Definition distance_line (distance : spec_float) : string :=
  "Distance: " ++ fixed2 (double_of_float distance) ++ " cm" ++ LF.

(** Two boards that offer a call the same inputs: the echo pin reads the
    same from here on, and the timers run alike, [shift] microseconds apart.
    Everything else (pins never read, history, bookkeeping) is free. *)
Definition same_inputs (shift : Z) (w1 w2 : board) : Prop :=
  (forall k, echo_at w2 k = echo_at w1 k) /\
  (forall k, timer_script w2 (ticks w2 + k) = timer_script w1 (ticks w1 + k) + shift).


(* ===================================================================== *)
(** ** Vocabulary of the proofs *)
(* ===================================================================== *)

(** Shape of a float: not NaN, and of sign [s]. *)
Definition signed (s : bool) (x : spec_float) : Prop :=
  match x with
  | S754_zero s' | S754_infinity s' | S754_finite s' _ _ => s' = s
  | S754_nan => False
  end.

(** Size of a float: when finite, its magnitude is at least [2 ^ k]. *)
Definition at_least (k : Z) (x : spec_float) : Prop :=
  match x with
  | S754_finite _ m e => k <= Z.log2 (Zpos m) + e
  | _ => True
  end.

(** When finite, its exponent is at least [k]. *)
Definition exponent_from (k : Z) (x : spec_float) : Prop :=
  match x with
  | S754_finite _ _ e => k <= e
  | _ => True
  end.

(** [P] holds of the [n] integers from [lo] on. *)
Fixpoint all_from (P : Z -> bool) (lo : Z) (n : nat) : bool :=
  match n with
  | O => true
  | S n' => P lo && all_from P (lo + 1) n'
  end.

(** Comparison of rationals, as a test. *)
Definition Qleb (a b : Q) : bool := (Qnum a * QDen b <=? Qnum b * QDen a)%Z.

(** The exact quotient the source approximates. *)
Definition exact_cm (d : Z) : Q := (inject_Z d / 58)%Q.

(** The computed distance is within one part in [2 ^ 24] of the exact one. *)
Definition within_tolerance (d : Z) : bool :=
  Qleb (Qabs (to_Q (distance_of_duration d) - exact_cm d)) (exact_cm d * (1 # 2 ^ 24)).

(** What the exhaustive check establishes for a duration the source accepts. *)
Definition accepted (d : Z) : bool :=
  let v := distance_of_duration d in
  negb (out_of_range v)
  && dle d1 (double_of_float v) && dle (double_of_float v) d400
  && Qleb 1 (to_Q v) && Qleb (to_Q v) 400
  && within_tolerance d.

Definition rejected (d : Z) : bool := out_of_range (distance_of_duration d).

(** The timer moves on between any two accesses, by at least a microsecond
    and by less than half its 32-bit range. *)
Definition clock_advances (w : board) : Prop :=
  forall k, 1 <= timer_script w (ticks w + S k) - timer_script w (ticks w + k) <= 2 ^ 31.

(** A failed measurement, in the two kinds the specification names. *)
Definition timed_out (w : board) : Prop :=
  (exists n, no_echo w n = true) \/ (exists n1 n2, echo_stuck w n1 n2 = true).

Definition range_rejected (w : board) : Prop :=
  exists n1 n2, echo_falls w n1 n2 = true /\
                out_of_range (distance_of_duration (pulse_us w n1 n2)) = true.

(** What [main] does before its loop, and what one turn of the loop adds
    after the measurement. *)
Definition startup : list action :=
  [Stdio_init; Sleep_ms 200; Gpio_init TRIG_PIN; Gpio_dir TRIG_PIN GPIO_OUT;
   Gpio_init ECHO_PIN; Gpio_dir ECHO_PIN GPIO_IN;
   Console ("Ultrasonic Sensor HC-SR04" ++ LF)].

Definition report (distance : spec_float) : list action :=
  [Console (distance_line distance); Sleep_ms 1000].

(** [n] complete turns of the main loop lead from one board to another. *)
Inductive cycles : nat -> board -> board -> Prop :=
| cycles_O (w : board) : cycles 0 w w
| cycles_S (n : nat) (w w1 w' : board) (v : spec_float) :
    returns get_reading_sensor w v w1 ->
    cycles n (advance w1 0 0 [] (report v)) w' ->
    cycles (S n) w w'.

(** A program that performs no action for [fuel] steps, whatever the board. *)
Definition quiet {R : Type} (fuel : nat) (t : itree hwE R) : Prop :=
  forall n w, (n <= fuel)%nat -> actions (board_of (exec n t w)) = actions w.

(* ===================================================================== *)
(** ** Test boards *)
(* ===================================================================== *)

(** Echo rises at the second poll and falls at the fourth; the timestamps
    are [100] and [100 + d]. *)
Definition pulse_board (d : Z) : board :=
  scripted [false; true; true; false] [0; 5; 100; 101; 300; 100 + d].

(** The echo line stays low and the timer advances a millisecond per read. *)
Definition silent_board : board :=
  {| pin_script := fun _ _ => false;
     timer_script := fun k => 1000 * Z.of_nat k;
     reads := 0; ticks := 0; captured := []; actions := [] |}.

(** The echo line rises at once and stays high. *)
Definition stuck_board : board :=
  {| pin_script := fun _ _ => true;
     timer_script := fun k => 1000 * Z.of_nat k;
     reads := 0; ticks := 0; captured := []; actions := [] |}.

(** Echo rises 30 ms after the trigger and lasts 20 ms: the second wait is
    still polling 45 ms after the trigger. *)
Definition late_board : board :=
  scripted [false; true; true; false] [0; 30000; 30010; 30020; 45000; 50010].

(** Both edges are seen right after a timer read of exactly 38000. *)
Definition brink_board : board :=
  scripted [false; true; true; false] [0; 38000; 38010; 38020; 76020; 76030].

(** The echo line is low and the first timer read of the first loop is
    already beyond the timeout. *)
Definition overdue_board : board := scripted [false] [0; 38001].

(** The echo line is high from the start and the first timer read of the
    second loop is already beyond the timeout. *)
Definition overdue_fall_board : board := scripted [true; true] [0; 10; 20; 38021].

(** Only the rise is seen right after a timer read of exactly 38000; the
    pulse then lasts 580 us. *)
Definition rise_brink_board : board :=
  scripted [false; true; true; false] [0; 38000; 38010; 38011; 38300; 38590].

(** [pulse_board 580] a second later, on a board with a history. *)
Definition later_board : board :=
  {| pin_script := fun _ k => nth k [false; true; true; false] false;
     timer_script := fun k => nth k [0; 5; 100; 101; 300; 680] 0 + 1000000;
     reads := 0; ticks := 0; captured := [42];
     actions := [Console "Distance: -1.00 cm"; Sleep_ms 1000] |}.

(* ===================================================================== *)
(** ** Vocabulary of the further properties *)
(* ===================================================================== *)

(** What the source ever does to the outside world: it initialises and
    directs its two pins, drives the trigger pin only, sleeps for the four
    delays it names, and prints. *)
Definition permitted (a : action) : Prop :=
  match a with
  | Stdio_init => True
  | Gpio_init p => p = TRIG_PIN \/ p = ECHO_PIN
  | Gpio_dir p out => (p = TRIG_PIN /\ out = GPIO_OUT) \/ (p = ECHO_PIN /\ out = GPIO_IN)
  | Gpio_put p _ => p = TRIG_PIN
  | Sleep_us n => n = 2 \/ n = 10
  | Sleep_ms n => n = 200 \/ n = 1000
  | Console _ => True
  end.

(** For [fuel] steps, whatever the board, the program only adds actions
    that satisfy [ok]. *)
Definition emits {R : Type} (ok : action -> Prop) (fuel : nat) (t : itree hwE R) : Prop :=
  forall n w, (n <= fuel)%nat ->
    exists l, actions (board_of (exec n t w)) = actions w ++ l /\ Forall ok l.

(** Strict comparison of rationals, as a test. *)
Definition Qltb (a b : Q) : bool := (Qnum a * QDen b <? Qnum b * QDen a)%Z.

(** The converted distances of the [n] durations from [lo] on climb
    strictly, starting above [prev]. *)
Fixpoint climbs (prev : Q) (lo : Z) (n : nat) : bool :=
  match n with
  | O => true
  | S n' =>
      let v := to_Q (distance_of_duration lo) in
      Qltb prev v && climbs v (lo + 1) n'
  end.

(** The timer never moves by more than [step] between two accesses. *)
Definition clock_steps (step : Z) (w : board) : Prop :=
  forall k, timer_script w (ticks w + S k) - timer_script w (ticks w + k) <= step.

(** The timer value behind the [k]-th access of a call. *)
Definition timer_at (w : board) (k : nat) : Z := timer_script w (ticks w + k).

(** The echo line is low for the first poll, high for the next [width]
    polls and low afterwards; the timer advances [tick] us per access. *)
Definition square_board (width : nat) (tick : Z) : board :=
  {| pin_script := fun _ k => (1 <=? k)%nat && (k <=? width)%nat;
     timer_script := fun k => tick * Z.of_nat k;
     reads := 0; ticks := 0; captured := []; actions := [] |}.
(* ===================================================================== *)
(** ** Running trees on the board *)
(* ===================================================================== *)

Section Exec.

Context {R : Type}.

Lemma exec_observe (t t' : itree hwE R) (n : nat) (w : board) :
  observe t = observe t' -> exec n t w = exec n t' w.
Proof.
  intros H. destruct n as [|n]; simpl; [reflexivity|]. now rewrite H.
Qed.

Lemma exec_S (n : nat) (t : itree hwE R) (w : board) :
  exec (S n) t w =
  match observe t with
  | RetF r => Returned r w
  | TauF t' => exec n t' w
  | VisF e k => let (x, w') := handle e w in exec n (k x) w'
  end.
Proof. reflexivity. Qed.

Lemma exec_ret (n : nat) (r : R) (w : board) : exec (S n) (Ret r) w = Returned r w.
Proof. reflexivity. Qed.

Lemma exec_tau (n : nat) (t : itree hwE R) (w : board) :
  exec (S n) (Tau t) w = exec n t w.
Proof. reflexivity. Qed.

Lemma exec_trigger (n : nat) (e : hwE R) (w : board) :
  exec (S (S n)) (ITree.trigger e) w = Returned (fst (handle e w)) (snd (handle e w)).
Proof. simpl. now destruct (handle e w). Qed.

(** More fuel never changes a result already reached. *)
Lemma exec_mono (n : nat) :
  forall (t : itree hwE R) (w : board) (r : R) (w' : board),
    exec n t w = Returned r w' -> forall m, (n <= m)%nat -> exec m t w = Returned r w'.
Proof.
  induction n as [|n IH]; intros t w r w' H m Hm; simpl in H; [discriminate|].
  destruct m as [|m]; [lia|]. simpl.
  destruct (observe t) as [x|t'|X e k].
  - exact H.
  - apply IH with (m := m) in H; [exact H|lia].
  - destruct (handle e w) as [x w1]. apply IH with (m := m) in H; [exact H|lia].
Qed.

Lemma returns_det (t : itree hwE R) (w : board) (r1 r2 : R) (w1 w2 : board) :
  returns t w r1 w1 -> returns t w r2 w2 -> r1 = r2 /\ w1 = w2.
Proof.
  intros [n1 H1] [n2 H2].
  apply exec_mono with (m := (n1 + n2)%nat) in H1; [|lia].
  apply exec_mono with (m := (n1 + n2)%nat) in H2; [|lia].
  rewrite H1 in H2. now inversion H2.
Qed.

Lemma returns_ret (r : R) (w : board) : returns (Ret r) w r w.
Proof. now exists 1%nat. Qed.

Lemma returns_trigger (e : hwE R) (w : board) :
  returns (ITree.trigger e) w (fst (handle e w)) (snd (handle e w)).
Proof. exists 2%nat. apply exec_trigger. Qed.

End Exec.

Section ExecBind.

Context {R U : Type}.

Lemma exec_bind_ret (n : nat) (x : R) (k : R -> itree hwE U) (w : board) :
  exec n (Ret x >>= k) w = exec n (k x) w.
Proof. now apply exec_observe. Qed.

Lemma exec_bind_tau (n : nat) (t : itree hwE R) (k : R -> itree hwE U) (w : board) :
  exec (S n) (Tau t >>= k) w = exec n (t >>= k) w.
Proof. reflexivity. Qed.

Lemma exec_bind_trigger (n : nat) (e : hwE R) (k : R -> itree hwE U) (w : board) :
  exec (S n) (ITree.trigger e >>= k) w = exec n (k (fst (handle e w))) (snd (handle e w)).
Proof.
  simpl. destruct (handle e w) as [x w1]. simpl. now apply exec_observe.
Qed.

(** A bind runs its first part to the end and then the continuation; the
    split of the fuel is exact. *)
Lemma exec_bind_cases (k : R -> itree hwE U) (n : nat) :
  forall (t : itree hwE R) (w : board),
    (exists w1, exec n t w = Running w1 /\ exec n (t >>= k) w = Running w1) \/
    (exists c x w1, (c <= n)%nat /\ exec (S c) t w = Returned x w1 /\
       exec c t w = Running w1 /\
       forall m, exec (c + m) (t >>= k) w = exec m (k x) w1).
Proof.
  induction n as [|n IH]; intros t w.
  - left. exists w. now split.
  - destruct (observe t) as [x|t'|X e h] eqn:Ht.
    + right. exists 0%nat, x, w. split; [lia|]. split; [|split].
      * simpl. now rewrite Ht.
      * reflexivity.
      * intros m. apply exec_observe. rewrite observe_bind, Ht. reflexivity.
    + destruct (IH t' w) as [(w1 & H1 & H2)|(c & x & w1 & Hc & H1 & H0 & H2)].
      * left. exists w1. split.
        -- simpl. now rewrite Ht.
        -- simpl. rewrite Ht. exact H2.
      * right. exists (S c), x, w1. split; [lia|]. split; [|split].
        -- rewrite exec_S, Ht. exact H1.
        -- rewrite exec_S, Ht. exact H0.
        -- intros m. simpl. rewrite Ht. apply H2.
    + destruct (handle e w) as [y w0] eqn:He.
      destruct (IH (h y) w0) as [(w1 & H1 & H2)|(c & x & w1 & Hc & H1 & H0 & H2)].
      * left. exists w1. split.
        -- simpl. rewrite Ht, He. exact H1.
        -- simpl. rewrite Ht. simpl. rewrite He. exact H2.
      * right. exists (S c), x, w1. split; [lia|]. split; [|split].
        -- rewrite exec_S, Ht, He. exact H1.
        -- rewrite exec_S, Ht, He. exact H0.
        -- intros m. simpl. rewrite Ht. simpl. rewrite He. apply H2.
Qed.

End ExecBind.

Section ExecCompose.

Context {R U : Type}.

Lemma exec_bind_bind {V : Type} (f : R -> itree hwE U) (g : U -> itree hwE V) (n : nat) :
  forall (t : itree hwE R) (w : board),
    exec n ((t >>= f) >>= g) w = exec n (t >>= (fun x => f x >>= g)) w.
Proof.
  induction n as [|n IH]; intros t w; [reflexivity|].
  destruct (observe t) as [x|t'|X e h] eqn:Ht.
  - apply exec_observe. rewrite !observe_bind, Ht. reflexivity.
  - simpl. rewrite Ht. simpl. apply IH.
  - simpl. rewrite Ht. simpl. destruct (handle e w) as [y w0]. apply IH.
Qed.

Lemma returns_bind (t : itree hwE R) (k : R -> itree hwE U) (w w1 w' : board) (x : R) (r : U) :
  returns t w x w1 -> returns (k x) w1 r w' -> returns (t >>= k) w r w'.
Proof.
  intros [n1 H1] [n2 H2].
  destruct (exec_bind_cases k n1 t w) as [(w2 & H & _)|(c & y & w2 & _ & Hc & _ & Hk)].
  - rewrite H in H1. discriminate.
  - apply exec_mono with (m := (S c + n1)%nat) in H1; [|lia].
    apply exec_mono with (m := (S c + n1)%nat) in Hc; [|lia].
    rewrite H1 in Hc. inversion Hc; subst y w2.
    exists (c + n2)%nat. now rewrite Hk.
Qed.

Lemma exec_bind_inv (t : itree hwE R) (k : R -> itree hwE U) (n : nat) (w w' : board) (r : U) :
  exec n (t >>= k) w = Returned r w' ->
  exists c x w1, (c <= n)%nat /\ exec (S c) t w = Returned x w1 /\
                 exec (n - c) (k x) w1 = Returned r w'.
Proof.
  intros H.
  destruct (exec_bind_cases k n t w) as [(w2 & _ & H2)|(c & y & w2 & Hc & Ht & _ & Hk)].
  - rewrite H2 in H. discriminate.
  - exists c, y, w2. split; [exact Hc|]. split; [exact Ht|].
    rewrite <- Hk. replace (c + (n - c))%nat with n by lia. exact H.
Qed.

Lemma returns_bind_inv (t : itree hwE R) (k : R -> itree hwE U) (w w' : board) (r : U) :
  returns (t >>= k) w r w' ->
  exists x w1, returns t w x w1 /\ returns (k x) w1 r w'.
Proof.
  intros [n H]. apply exec_bind_inv in H as (c & x & w1 & _ & Ht & Hk).
  exists x, w1. split; [now exists (S c)|now exists (n - c)%nat].
Qed.

End ExecCompose.

(** The executor agrees with the library's interpretation into the state
    monad: a run that returns is, up to silent steps, the tree [Ret]. *)
Lemma returns_interp_state {R : Type} (t : itree hwE R) (w w' : board) (r : R) :
  returns t w r w' -> eutt eq (interp_state board_handler t w) (Ret (w', r)).
Proof.
  intros [n H]. revert t w H.
  induction n as [|n IH]; intros t w H; [discriminate|].
  rewrite (itree_eta t). simpl in H.
  destruct (observe t) as [x|t'|X e k].
  - inversion H; subst. rewrite interp_state_ret. reflexivity.
  - rewrite interp_state_tau, tau_eutt. now apply IH.
  - rewrite interp_state_vis. unfold board_handler at 1.
    rewrite bind_ret_l. cbn [fst snd]. rewrite tau_eutt.
    destruct (handle e w) as [x w1]. now apply IH.
Qed.

Lemma returns_trigger_inv {R : Type} (e : hwE R) (w w' : board) (r : R) :
  returns (ITree.trigger e) w r w' -> r = fst (handle e w) /\ w' = snd (handle e w).
Proof.
  intros H. destruct (returns_det _ _ _ _ _ _ H (returns_trigger e w)). now split.
Qed.

Lemma returns_ret_inv {R : Type} (x r : R) (w w' : board) :
  returns (Ret x) w r w' -> r = x /\ w' = w.
Proof.
  intros H. destruct (returns_det _ _ _ _ _ _ H (returns_ret x w)). now split.
Qed.

(* ===================================================================== *)
(** ** Bookkeeping on boards *)
(* ===================================================================== *)

Lemma board_ext (w w' : board) :
  pin_script w = pin_script w' -> timer_script w = timer_script w' ->
  reads w = reads w' -> ticks w = ticks w' ->
  captured w = captured w' -> actions w = actions w' -> w = w'.
Proof.
  destruct w, w'; simpl; intros; subst; reflexivity.
Qed.

Ltac board_eq :=
  apply board_ext; simpl;
  rewrite ?app_nil_r, <- ?app_assoc; simpl; try reflexivity; try lia.

Lemma advance_0 (w : board) : advance w 0 0 [] [] = w.
Proof. board_eq. Qed.

Lemma advance_advance (w : board) (a b a' b' : nat) (c c' : list Z) (l l' : list action) :
  advance (advance w a b c l) a' b' c' l' = advance w (a + a') (b + b') (c ++ c') (l ++ l').
Proof. board_eq. Qed.

Lemma act_advance (x : action) (w : board) : act x w = advance w 0 0 [] [x].
Proof. board_eq. Qed.

Lemma read_pin_advance (w : board) :
  read_pin ECHO_PIN w = (echo_at w 0, advance w 1 0 [] []).
Proof.
  unfold read_pin, echo_at. rewrite Nat.add_0_r. f_equal. board_eq.
Qed.

Lemma read_timer_32_advance (w : board) :
  read_timer_32 w = (us32_at w 0, advance w 0 1 [] []).
Proof.
  unfold read_timer_32, us32_at. rewrite Nat.add_0_r. f_equal. board_eq.
Qed.

Lemma read_timer_64_advance (w : board) :
  read_timer_64 w = (us64_at w 0, advance w 0 1 [us64_at w 0] []).
Proof.
  unfold read_timer_64, us64_at. rewrite Nat.add_0_r. f_equal. board_eq.
Qed.

Lemma echo_at_advance (w : board) (a b : nat) (c : list Z) (l : list action) (k : nat) :
  echo_at (advance w a b c l) k = echo_at w (a + k).
Proof. unfold echo_at; simpl. now rewrite Nat.add_assoc. Qed.

Lemma us32_at_advance (w : board) (a b : nat) (c : list Z) (l : list action) (k : nat) :
  us32_at (advance w a b c l) k = us32_at w (b + k).
Proof. unfold us32_at; simpl. now rewrite Nat.add_assoc. Qed.

Lemma us64_at_advance (w : board) (a b : nat) (c : list Z) (l : list action) (k : nat) :
  us64_at (advance w a b c l) k = us64_at w (b + k).
Proof. unfold us64_at; simpl. now rewrite Nat.add_assoc. Qed.

(* ===================================================================== *)
(** ** The polling loops *)
(* ===================================================================== *)

(** Reassociates the leftmost nested bind under [exec]. *)
Ltac assoc_bind :=
  match goal with
  | |- context [exec ?n (ITree.bind (ITree.bind ?t ?f) ?g) ?w] =>
      rewrite (exec_bind_bind f g n t w)
  end.

Section Poll.

Variable cond : bool -> bool.
Variable start : Z.

Let loop := poll_echo cond start echo_timeout.

(** One turn of a polling loop costs three steps. *)
Lemma poll_step (m : nat) (w : board) :
  exec (3 + m) loop w =
  if cond (echo_at w 0) then
    if sub_u32 (us32_at w 0) start >? echo_timeout
    then Returned (Some minus_one) (advance w 1 1 [] [])
    else exec m loop (advance w 1 1 [] [])
  else Returned None (advance w 1 0 [] []).
Proof.
  unfold loop, poll_echo.
  rewrite (exec_observe _ _ _ _ (observing_observe (unfold_aloop_ _ tt))).
  assoc_bind.
  change (3 + m)%nat with (S (2 + m)).
  rewrite exec_bind_trigger. cbn [handle]. rewrite read_pin_advance. cbn [fst snd].
  destruct (cond (echo_at w 0)).
  - assoc_bind.
    change (2 + m)%nat with (S (1 + m)).
    rewrite exec_bind_trigger. cbn [handle]. rewrite read_timer_32_advance. cbn [fst snd].
    rewrite us32_at_advance, advance_advance. cbn [Nat.add app].
    destruct (sub_u32 (us32_at w 0) start >? echo_timeout).
    + rewrite !exec_bind_ret. reflexivity.
    + rewrite !exec_bind_ret. reflexivity.
  - rewrite !exec_bind_ret. reflexivity.
Qed.

Lemma keeps_waiting_S (w : board) (e0 t0 n : nat) :
  keeps_waiting cond w e0 t0 start (S n) =
  cond (echo_at w e0) && (sub_u32 (us32_at w t0) start <=? echo_timeout)
  && keeps_waiting cond w (S e0) (S t0) start n.
Proof.
  unfold keeps_waiting. rewrite <- cons_seq, <- seq_shift. cbn [forallb].
  rewrite !Nat.add_0_r. f_equal.
  induction (seq 0 n) as [|k ks IH]; [reflexivity|].
  cbn [List.map forallb]. rewrite IH, !Nat.add_succ_r. reflexivity.
Qed.

Lemma poll_sees_edge (w : board) (c : list Z) (l : list action) (n : nat) :
  forall e0 t0,
    sees_edge cond w e0 t0 start n = true ->
    returns loop (advance w e0 t0 c l) None (advance w (e0 + n + 1) (t0 + n) c l).
Proof.
  unfold sees_edge.
  induction n as [|n IH]; intros e0 t0 H.
  - cbn [keeps_waiting seq forallb andb] in H. apply negb_true_iff in H.
    exists 3%nat. rewrite (poll_step 0), echo_at_advance, H, advance_advance.
    f_equal. board_eq.
  - rewrite keeps_waiting_S in H. apply andb_prop in H as [H He].
    apply andb_prop in H as [H Hw]. apply andb_prop in H as [Hc Ht].
    destruct (IH (S e0) (S t0)) as [fuel Hf].
    { rewrite Hw. rewrite Nat.add_succ_r in He. exact He. }
    exists (3 + fuel)%nat.
    rewrite poll_step, echo_at_advance, us32_at_advance, !Nat.add_0_r, Hc.
    apply Z.leb_le in Ht. destruct (Z.gtb_spec (sub_u32 (us32_at w t0) start) echo_timeout); [lia|].
    rewrite advance_advance, !app_nil_r.
    replace (e0 + 1)%nat with (S e0) by lia. replace (t0 + 1)%nat with (S t0) by lia.
    rewrite Hf. f_equal. board_eq.
Qed.

Lemma poll_times_out (w : board) (c : list Z) (l : list action) (n : nat) :
  forall e0 t0,
    times_out cond w e0 t0 start n = true ->
    returns loop (advance w e0 t0 c l) (Some minus_one)
            (advance w (e0 + n + 1) (t0 + n + 1) c l).
Proof.
  unfold times_out.
  induction n as [|n IH]; intros e0 t0 H.
  - cbn [keeps_waiting seq forallb andb] in H. apply andb_prop in H as [Hc Ht].
    exists 3%nat.
    rewrite (poll_step 0), echo_at_advance, us32_at_advance, Hc, Ht, advance_advance.
    f_equal. board_eq.
  - rewrite keeps_waiting_S in H. apply andb_prop in H as [H Hgt].
    apply andb_prop in H as [H He].
    apply andb_prop in H as [H Hw]. apply andb_prop in H as [Hc Ht].
    destruct (IH (S e0) (S t0)) as [fuel Hf].
    { rewrite !Nat.add_succ_r in He, Hgt. cbn [Nat.add]. rewrite Hw, He, Hgt. reflexivity. }
    exists (3 + fuel)%nat.
    rewrite poll_step, echo_at_advance, us32_at_advance, !Nat.add_0_r, Hc.
    apply Z.leb_le in Ht. destruct (Z.gtb_spec (sub_u32 (us32_at w t0) start) echo_timeout); [lia|].
    rewrite advance_advance, !app_nil_r.
    replace (e0 + 1)%nat with (S e0) by lia. replace (t0 + 1)%nat with (S t0) by lia.
    rewrite Hf. f_equal. board_eq.
Qed.

(** Conversely, a polling loop that returns has seen its edge or timed out. *)
Lemma poll_returned (w : board) (c : list Z) (l : list action) (fuel : nat) :
  forall e0 t0 r w',
    exec fuel loop (advance w e0 t0 c l) = Returned r w' ->
    exists n,
      (sees_edge cond w e0 t0 start n = true /\ r = None /\
       w' = advance w (e0 + n + 1) (t0 + n) c l) \/
      (times_out cond w e0 t0 start n = true /\ r = Some minus_one /\
       w' = advance w (e0 + n + 1) (t0 + n + 1) c l).
Proof.
  induction fuel as [fuel IH] using lt_wf_ind. intros e0 t0 r w' H.
  assert (Hs : exists m, (m < fuel \/ m = 0)%nat /\
                 exec (3 + m) loop (advance w e0 t0 c l) = Returned r w').
  { destruct (Nat.lt_ge_cases fuel 3) as [Hlt|Hge].
    - exists 0%nat. split; [now right|]. apply exec_mono with (n := fuel); [exact H|lia].
    - exists (fuel - 3)%nat. split; [left; lia|].
      replace (3 + (fuel - 3))%nat with fuel by lia. exact H. }
  destruct Hs as (m & Hm & Hs).
  rewrite poll_step, echo_at_advance, us32_at_advance, advance_advance, !Nat.add_0_r in Hs.
  rewrite !app_nil_r in Hs.
  destruct (cond (echo_at w e0)) eqn:Hc.
  - destruct (sub_u32 (us32_at w t0) start >? echo_timeout) eqn:Ht.
    + exists 0%nat. right. inversion Hs; subst r w'.
      unfold times_out. cbn [keeps_waiting seq forallb andb]. rewrite !Nat.add_0_r, Hc, Ht.
      repeat split; try reflexivity; board_eq.
    + destruct Hm as [Hm|Hm]; [|subst m; discriminate Hs].
      assert (Hle : (sub_u32 (us32_at w t0) start <=? echo_timeout) = true).
      { apply Z.leb_le. destruct (Z.gtb_spec (sub_u32 (us32_at w t0) start) echo_timeout);
          [discriminate|lia]. }
      replace (e0 + 1)%nat with (S e0) in Hs by lia.
      replace (t0 + 1)%nat with (S t0) in Hs by lia.
      destruct (IH m Hm (S e0) (S t0) r w' Hs) as [n [(Hn & Hr & Hw)|(Hn & Hr & Hw)]].
      * exists (S n). left. unfold sees_edge in *. rewrite keeps_waiting_S, Hc.
        apply andb_prop in Hn as [Hk He]. cbn [Nat.add] in He.
        rewrite Nat.add_succ_r, Hk, He, Hle.
        split; [reflexivity|]. split; [exact Hr|]. rewrite Hw. board_eq.
      * exists (S n). right. unfold times_out in *. rewrite keeps_waiting_S, Hc.
        apply andb_prop in Hn as [Hn Hgt]. apply andb_prop in Hn as [Hk He].
        cbn [Nat.add] in He, Hgt.
        rewrite !Nat.add_succ_r, Hk, He, Hgt, Hle.
        split; [reflexivity|]. split; [exact Hr|]. rewrite Hw. board_eq.
  - exists 0%nat. left. inversion Hs; subst r w'.
    unfold sees_edge. cbn [keeps_waiting seq forallb andb]. rewrite Nat.add_0_r, Hc.
    repeat split; try reflexivity; board_eq.
Qed.

End Poll.

(* ===================================================================== *)
(** ** One call to [get_reading_sensor] *)
(* ===================================================================== *)

Lemma get_reading_sensor_stages :
  get_reading_sensor =
  (write_trig_pin false ;;
   ITree.trigger (sleep_us 2) ;;
   write_trig_pin true ;;
   ITree.trigger (sleep_us 10) ;;
   write_trig_pin false ;;
   after_trigger).
Proof. reflexivity. Qed.

(** The trigger pulse is played first, whatever follows. *)
Lemma exec_trigger_pulse (m : nat) (w : board) :
  exec (5 + m) get_reading_sensor w = exec m after_trigger (advance w 0 0 [] trigger_pulse).
Proof.
  rewrite get_reading_sensor_stages. unfold write_trig_pin.
  change (5 + m)%nat with (S (S (S (S (S m))))).
  rewrite !exec_bind_trigger. cbn [handle fst snd].
  rewrite !act_advance, !advance_advance. reflexivity.
Qed.

Lemma returns_get_reading_sensor (w : board) (r : spec_float) (w' : board) :
  returns get_reading_sensor w r w' <->
  returns after_trigger (advance w 0 0 [] trigger_pulse) r w'.
Proof.
  split; intros [n H].
  - exists n. rewrite <- exec_trigger_pulse. apply exec_mono with (n := n); [exact H|lia].
  - exists (5 + n)%nat. now rewrite exec_trigger_pulse.
Qed.

Lemma after_fall_returns (start : Z) (w : board) :
  returns (after_fall start) w
          (checked (distance_of_duration (absolute_time_diff_us start (us64_at w 0))))
          (advance w 0 1 [us64_at w 0] []).
Proof.
  unfold after_fall.
  eapply returns_bind; [apply returns_trigger|].
  cbn [handle]. rewrite read_timer_64_advance. cbn [fst snd].
  unfold checked, out_of_range, distance_of_duration.
  destruct (dlt _ d1 || dlt d400 _); apply returns_ret.
Qed.

(** Normal form of the boards met along a call. *)
Ltac norm_board :=
  cbn [handle fst snd];
  rewrite ?read_timer_64_advance, ?read_timer_32_advance; cbn [fst snd];
  rewrite ?us64_at_advance, ?us32_at_advance, ?advance_advance;
  rewrite ?Nat.add_0_r, ?app_nil_r.

Section SecondWait.

Variable w : board.
Variables a b : nat.
Variable c : list Z.
Variable l : list action.

Let start := us64_at w b.
Let armed := us32_at w (b + 1).

Lemma after_rise_stuck (n2 : nat) :
  times_out (fun level => level) w a (b + 2) armed n2 = true ->
  returns after_rise (advance w a b c l) minus_one
          (advance w (a + n2 + 1) (b + 2 + n2 + 1) (c ++ [start]) l).
Proof.
  intros H. unfold after_rise.
  eapply returns_bind; [apply returns_trigger|]. norm_board.
  eapply returns_bind; [apply returns_trigger|]. norm_board.
  rewrite <- Nat.add_assoc. cbn [Nat.add].
  eapply returns_bind; [apply (poll_times_out _ _ _ _ _ _ _ _ H)|].
  apply returns_ret.
Qed.

Lemma after_rise_falls (n2 : nat) :
  sees_edge (fun level => level) w a (b + 2) armed n2 = true ->
  returns after_rise (advance w a b c l)
          (checked (distance_of_duration
                      (absolute_time_diff_us start (us64_at w (b + 2 + n2)))))
          (advance w (a + n2 + 1) (b + 2 + n2 + 1) (c ++ [start; us64_at w (b + 2 + n2)]) l).
Proof.
  intros H. unfold after_rise.
  eapply returns_bind; [apply returns_trigger|]. norm_board.
  eapply returns_bind; [apply returns_trigger|]. norm_board.
  rewrite <- Nat.add_assoc. cbn [Nat.add].
  eapply returns_bind; [apply (poll_sees_edge _ _ _ _ _ _ _ _ H)|].
  cbn iota.
  replace (advance w (a + n2 + 1) (b + 2 + n2 + 1) (c ++ [start; us64_at w (b + 2 + n2)]) l)
    with (advance (advance w (a + n2 + 1) (b + 2 + n2) (c ++ [start]) l) 0 1
                  [us64_at (advance w (a + n2 + 1) (b + 2 + n2) (c ++ [start]) l) 0] []).
  - replace (us64_at w (b + 2 + n2))
      with (us64_at (advance w (a + n2 + 1) (b + 2 + n2) (c ++ [start]) l) 0).
    + apply after_fall_returns.
    + now rewrite us64_at_advance, Nat.add_0_r.
  - rewrite us64_at_advance, advance_advance, !Nat.add_0_r, app_nil_r, <- app_assoc.
    reflexivity.
Qed.

Lemma after_rise_returned (r : spec_float) (w' : board) :
  returns after_rise (advance w a b c l) r w' ->
  exists n2,
    (times_out (fun level => level) w a (b + 2) armed n2 = true /\ r = minus_one /\
     w' = advance w (a + n2 + 1) (b + 2 + n2 + 1) (c ++ [start]) l) \/
    (sees_edge (fun level => level) w a (b + 2) armed n2 = true /\
     r = checked (distance_of_duration
                    (absolute_time_diff_us start (us64_at w (b + 2 + n2)))) /\
     w' = advance w (a + n2 + 1) (b + 2 + n2 + 1) (c ++ [start; us64_at w (b + 2 + n2)]) l).
Proof.
  unfold after_rise. intros H.
  apply returns_bind_inv in H as (x & w1 & H1 & H).
  apply returns_trigger_inv in H1 as [-> ->]. revert H. norm_board. intros H.
  apply returns_bind_inv in H as (x & w1 & H1 & H).
  apply returns_trigger_inv in H1 as [-> ->]. revert H. norm_board. intros H.
  rewrite <- Nat.add_assoc in H. cbn [Nat.add] in H.
  apply returns_bind_inv in H as (x & w1 & [fuel H1] & H).
  apply poll_returned in H1 as [n2 [(Hn & -> & ->)|(Hn & -> & ->)]]; exists n2.
  - right. split; [exact Hn|].
    assert (Hg : returns (after_fall start) (advance w (a + n2 + 1) (b + 2 + n2) (c ++ [start]) l) r w')
      by exact H.
    destruct (returns_det _ _ _ _ _ _ Hg (after_fall_returns start _)) as [-> ->].
    rewrite us64_at_advance, advance_advance, !Nat.add_0_r, app_nil_r, <- app_assoc.
    now split.
  - left. split; [exact Hn|]. apply returns_ret_inv in H as [-> ->]. now split.
Qed.

End SecondWait.

Lemma second_wait_indices (n1 : nat) :
  (0 + n1 + 1 = n1 + 1)%nat /\ (1 + n1 + 2 = n1 + 3)%nat /\ (1 + n1 + 1 = n1 + 2)%nat /\
  (1 + n1 = n1 + 1)%nat.
Proof. lia. Qed.

Lemma reading_returns (w : board) (r : spec_float) (w' : board) :
  reading w r w' -> returns get_reading_sensor w r w'.
Proof.
  intros H. apply returns_get_reading_sensor. unfold after_trigger.
  eapply returns_bind; [apply returns_trigger|]. norm_board. cbn [Nat.add].
  destruct H as [n H|n1 n2 H|n1 n2 H].
  - eapply returns_bind; [apply (poll_times_out _ _ _ _ _ _ _ _ H)|].
    replace (0 + n + 1)%nat with (n + 1)%nat by lia.
    replace (1 + n + 1)%nat with (n + 2)%nat by lia.
    apply returns_ret.
  - apply andb_prop in H as [H1 H2].
    eapply returns_bind; [apply (poll_sees_edge _ _ _ _ _ _ _ _ H1)|]. cbn iota.
    destruct (second_wait_indices n1) as (E1 & E2 & E3 & E4).
    pose proof (after_rise_stuck w (0 + n1 + 1) (1 + n1) [] trigger_pulse n2) as Hs.
    rewrite E1, E2, E3, E4 in Hs. specialize (Hs H2).
    replace (n1 + 1 + n2 + 1)%nat with (n1 + n2 + 2)%nat in Hs by lia.
    replace (n1 + 3 + n2 + 1)%nat with (n1 + n2 + 4)%nat in Hs by lia.
    rewrite E1, E4. exact Hs.
  - apply andb_prop in H as [H1 H2].
    eapply returns_bind; [apply (poll_sees_edge _ _ _ _ _ _ _ _ H1)|]. cbn iota.
    destruct (second_wait_indices n1) as (E1 & E2 & E3 & E4).
    pose proof (after_rise_falls w (0 + n1 + 1) (1 + n1) [] trigger_pulse n2) as Hs.
    rewrite E1, E2, E3, E4 in Hs. specialize (Hs H2).
    replace (n1 + 1 + n2 + 1)%nat with (n1 + n2 + 2)%nat in Hs by lia.
    replace (n1 + 3 + n2 + 1)%nat with (n1 + n2 + 4)%nat in Hs by lia.
    replace (n1 + 3 + n2)%nat with (n1 + n2 + 3)%nat in Hs by lia.
    rewrite E1, E4. exact Hs.
Qed.

Lemma returns_reading (w : board) (r : spec_float) (w' : board) :
  returns get_reading_sensor w r w' -> reading w r w'.
Proof.
  intros H. apply returns_get_reading_sensor in H. unfold after_trigger in H.
  apply returns_bind_inv in H as (x & w1 & H1 & H).
  apply returns_trigger_inv in H1 as [-> ->]. revert H. norm_board. cbn [Nat.add]. intros H.
  apply returns_bind_inv in H as (x & w1 & [fuel H1] & H).
  apply poll_returned in H1 as [n1 [(Hn & -> & ->)|(Hn & -> & ->)]].
  - cbn iota in H.
    destruct (second_wait_indices n1) as (E1 & E2 & E3 & E4).
    replace (1 + n1)%nat with (n1 + 1)%nat in H by lia.
    replace (0 + n1 + 1)%nat with (n1 + 1)%nat in H by lia.
    apply after_rise_returned in H as [n2 [(H2 & -> & ->)|(H2 & -> & ->)]].
    + replace (n1 + 1 + 2)%nat with (n1 + 3)%nat in H2 by lia.
      replace (n1 + 1 + 1)%nat with (n1 + 2)%nat in H2 by lia.
      replace (n1 + 1 + n2 + 1)%nat with (n1 + n2 + 2)%nat by lia.
      replace (n1 + 1 + 2 + n2 + 1)%nat with (n1 + n2 + 4)%nat by lia.
      apply reading_echo_stuck. unfold echo_stuck, echo_rises. now rewrite Hn, H2.
    + replace (n1 + 1 + 2)%nat with (n1 + 3)%nat in H2 by lia.
      replace (n1 + 1 + 1)%nat with (n1 + 2)%nat in H2 by lia.
      replace (n1 + 1 + n2 + 1)%nat with (n1 + n2 + 2)%nat by lia.
      replace (n1 + 1 + 2 + n2 + 1)%nat with (n1 + n2 + 4)%nat by lia.
      replace (n1 + 1 + 2 + n2)%nat with (n1 + n2 + 3)%nat by lia.
      apply reading_pulse. unfold echo_falls, echo_rises. now rewrite Hn, H2.
  - apply returns_ret_inv in H as [-> ->].
    replace (0 + n1 + 1)%nat with (n1 + 1)%nat by lia.
    replace (1 + n1 + 1)%nat with (n1 + 2)%nat by lia.
    now apply reading_no_echo.
Qed.

(** A call returns exactly in the ways listed by [reading]. *)
Lemma get_reading_sensor_spec (w : board) (r : spec_float) (w' : board) :
  returns get_reading_sensor w r w' <-> reading w r w'.
Proof. split; [apply returns_reading|apply reading_returns]. Qed.

(* ===================================================================== *)
(** ** Floating point: shape and size of the results *)
(* ===================================================================== *)

Lemma digits2_pos_size (m : positive) : digits2_pos m = Pos.size m.
Proof. induction m; simpl; congruence. Qed.

Lemma Zdigits2_log2 (m : positive) : Zdigits2 (Zpos m) = Z.log2 (Zpos m) + 1.
Proof.
  simpl. rewrite digits2_pos_size. destruct m; simpl; lia.
Qed.

Lemma shr_m_of_loc (m : Z) (l : location) : shr_m (shr_record_of_loc m l) = m.
Proof. destruct l as [|[]]; reflexivity. Qed.

Lemma shr_1_div2 (mrs : shr_record) :
  0 <= shr_m mrs -> shr_m (shr_1 mrs) = Z.div2 (shr_m mrs).
Proof.
  destruct mrs as [m r s]. simpl. destruct m as [|[p|p|]|p]; simpl; intros; try reflexivity; lia.
Qed.

Lemma iter_shr_1 (p : positive) :
  forall mrs, 0 <= shr_m mrs ->
    shr_m (iter_pos shr_1 p mrs) = Z.shiftr (shr_m mrs) (Zpos p).
Proof.
  induction p as [p IH|p IH|]; intros mrs H; simpl iter_pos.
  - assert (H1 : 0 <= shr_m (shr_1 mrs)).
    { rewrite shr_1_div2 by exact H. apply Z.div2_nonneg. exact H. }
    assert (H2 : 0 <= shr_m (iter_pos shr_1 p (shr_1 mrs))).
    { rewrite IH by exact H1. apply Z.shiftr_nonneg. exact H1. }
    rewrite IH by exact H2. rewrite IH by exact H1. rewrite shr_1_div2 by exact H.
    rewrite Z.div2_spec, !Z.shiftr_shiftr by lia. f_equal. lia.
  - assert (H2 : 0 <= shr_m (iter_pos shr_1 p mrs)).
    { rewrite IH by exact H. apply Z.shiftr_nonneg. exact H. }
    rewrite IH by exact H2. rewrite IH by exact H.
    rewrite Z.shiftr_shiftr by lia. f_equal. lia.
  - rewrite shr_1_div2 by exact H. apply Z.div2_spec.
Qed.

Lemma shr_spec (mrs : shr_record) (e n : Z) :
  0 <= shr_m mrs ->
  shr_m (fst (shr mrs e n)) = Z.shiftr (shr_m mrs) (Z.max 0 n) /\
  snd (shr mrs e n) = e + Z.max 0 n.
Proof.
  intros H. destruct n as [|p|p]; simpl.
  - split; [reflexivity|lia].
  - split; [now apply iter_shr_1|reflexivity].
  - split; [reflexivity|lia].
Qed.

Lemma round_nearest_even_bounds (m : Z) (l : location) :
  m <= round_nearest_even m l <= m + 1.
Proof.
  destruct l as [|[]]; simpl; try lia. destruct (Z.even m); lia.
Qed.

Lemma log2_shiftr_ge (a n : Z) : 0 <= a -> 0 <= n -> Z.log2 a - n <= Z.log2 (Z.shiftr a n).
Proof.
  intros Ha Hn. destruct (Z.eq_dec a 0) as [->|Hz].
  - rewrite Z.shiftr_0_l. simpl. lia.
  - rewrite Z.log2_shiftr by lia. lia.
Qed.

Section Round.

Variables prec emax : Z.

Lemma fexp_ge (e : Z) : e - prec <= fexp prec emax e.
Proof. unfold fexp. lia. Qed.

Lemma binary_round_aux_shape (s : bool) (m e : Z) (l : location) :
  0 <= m -> signed s (binary_round_aux prec emax s m e l).
Proof.
  intros Hm. unfold binary_round_aux, shr_fexp.
  set (n1 := fexp prec emax (Zdigits2 m + e) - e).
  destruct (shr_spec (shr_record_of_loc m l) e n1) as [Hm1 He1].
  { now rewrite shr_m_of_loc. }
  destruct (shr (shr_record_of_loc m l) e n1) as [mrs1 e1]. simpl in Hm1, He1.
  rewrite shr_m_of_loc in Hm1.
  set (r := round_nearest_even (shr_m mrs1) (loc_of_shr_record mrs1)).
  assert (Hr : 0 <= r).
  { pose proof (round_nearest_even_bounds (shr_m mrs1) (loc_of_shr_record mrs1)).
    assert (0 <= shr_m mrs1) by (rewrite Hm1; now apply Z.shiftr_nonneg). unfold r. lia. }
  set (n2 := fexp prec emax (Zdigits2 r + e1) - e1).
  destruct (shr_spec (shr_record_of_loc r loc_Exact) e1 n2) as [Hm2 He2].
  { now rewrite shr_m_of_loc. }
  destruct (shr (shr_record_of_loc r loc_Exact) e1 n2) as [mrs2 e2]. simpl in Hm2, He2.
  rewrite ?shr_m_of_loc in Hm2.
  assert (H2 : 0 <= shr_m mrs2) by (rewrite Hm2; now apply Z.shiftr_nonneg).
  destruct (shr_m mrs2) as [|p|p]; simpl; try reflexivity.
  - destruct (e2 <=? emax - prec); reflexivity.
  - lia.
Qed.

Lemma binary_round_aux_size (s : bool) (m : positive) (e : Z) (l : location) (k : Z) :
  k <= Z.log2 (Zpos m) + e ->
  at_least k (binary_round_aux prec emax s (Zpos m) e l) /\
  exponent_from (k + 1 - prec) (binary_round_aux prec emax s (Zpos m) e l).
Proof.
  intros Hk. unfold binary_round_aux, shr_fexp.
  set (n1 := fexp prec emax (Zdigits2 (Zpos m) + e) - e).
  destruct (shr_spec (shr_record_of_loc (Zpos m) l) e n1) as [Hm1 He1].
  { now rewrite shr_m_of_loc. }
  destruct (shr (shr_record_of_loc (Zpos m) l) e n1) as [mrs1 e1]. simpl in Hm1, He1.
  rewrite shr_m_of_loc in Hm1.
  set (r := round_nearest_even (shr_m mrs1) (loc_of_shr_record mrs1)).
  pose proof (round_nearest_even_bounds (shr_m mrs1) (loc_of_shr_record mrs1)) as Hb.
  fold r in Hb.
  assert (H1 : 0 <= shr_m mrs1) by (rewrite Hm1; now apply Z.shiftr_nonneg).
  set (n2 := fexp prec emax (Zdigits2 r + e1) - e1).
  destruct (shr_spec (shr_record_of_loc r loc_Exact) e1 n2) as [Hm2 He2].
  { rewrite shr_m_of_loc. lia. }
  destruct (shr (shr_record_of_loc r loc_Exact) e1 n2) as [mrs2 e2]. simpl in Hm2, He2.
  rewrite ?shr_m_of_loc in Hm2.
  destruct (shr_m mrs2) as [|p|p] eqn:Hp; cbn [at_least exponent_from]; try (split; exact I).
  destruct (e2 <=? emax - prec); cbn [at_least exponent_from]; [|split; exact I].
  pose proof (log2_shiftr_ge (Zpos m) (Z.max 0 n1)) as L1.
  pose proof (log2_shiftr_ge r (Z.max 0 n2)) as L2.
  pose proof (Z.log2_le_mono (shr_m mrs1) r) as L3.
  pose proof (fexp_ge (Zdigits2 (Zpos m) + e)) as F1.
  pose proof (Zdigits2_log2 m) as D1.
  rewrite <- Hm1 in L1. rewrite <- Hm2 in L2.
  subst n1. split; lia.
Qed.

Lemma iter_xO_log2 (d : positive) (m : positive) :
  Z.log2 (Zpos (Pos.iter xO m d)) = Z.log2 (Zpos m) + Zpos d.
Proof.
  revert m. induction d as [|d IH] using Pos.peano_ind; intros m.
  - change (Zpos (Pos.iter xO m 1)) with (2 * Zpos m).
    rewrite Z.log2_double by lia. lia.
  - rewrite Pos.iter_succ. rewrite Pos2Z.inj_succ.
    change (Zpos (Pos.iter xO m d)~0) with (2 * Zpos (Pos.iter xO m d)).
    rewrite Z.log2_double by lia. rewrite IH. lia.
Qed.

Lemma shl_align_size (m : positive) (e e' : Z) :
  Z.log2 (Zpos (fst (shl_align m e e'))) + snd (shl_align m e e') = Z.log2 (Zpos m) + e.
Proof.
  unfold shl_align. destruct (e' - e) as [|d|d] eqn:Hd; simpl fst; simpl snd; try reflexivity.
  rewrite iter_xO_log2. lia.
Qed.

Lemma binary_round_shape (s : bool) (m : positive) (e : Z) :
  signed s (binary_round prec emax s m e).
Proof.
  unfold binary_round. destruct (shl_align m e _) as [mz ez].
  now apply binary_round_aux_shape.
Qed.

Lemma binary_round_size (s : bool) (m : positive) (e k : Z) :
  k <= Z.log2 (Zpos m) + e ->
  at_least k (binary_round prec emax s m e) /\
  exponent_from (k + 1 - prec) (binary_round prec emax s m e).
Proof.
  intros Hk. unfold binary_round.
  pose proof (shl_align_size m e (fexp prec emax (Zpos (digits2_pos m) + e))) as Hs.
  destruct (shl_align m e _) as [mz ez]. cbn [fst snd] in Hs.
  apply binary_round_aux_size. lia.
Qed.

End Round.

Lemma round_to_shape (prec emax : Z) (s : bool) (x : spec_float) :
  signed s x -> signed s (round_to prec emax x).
Proof.
  destruct x as [s'|s'| |s' m e]; simpl; auto.
  intros ->. destruct s; simpl; apply binary_round_shape.
Qed.

Lemma round_to_size (prec emax : Z) (k : Z) (x : spec_float) :
  at_least k x ->
  at_least k (round_to prec emax x) /\ 
  (match x with S754_finite _ _ _ => exponent_from (k + 1 - prec) (round_to prec emax x) | _ => True end).
Proof.
  destruct x as [s'|s'| |s' m e]; simpl; auto.
  intros H. destruct s'; simpl; now apply binary_round_size.
Qed.

Lemma d58_eq : d58 = S754_finite false 8162774324609024 (-47).
Proof. reflexivity. Qed.

Lemma div_core_quotient (m1 : positive) (e1 : Z) (m2 : positive) (e2 : Z) :
  let '(q, e', _) := SFdiv_core_binary 53 1024 (Zpos m1) e1 (Zpos m2) e2 in
  let s := e1 - e2 - e' in
  0 <= s /\ q = (Zpos m1 * 2 ^ s) / Zpos m2 /\
  e' <= fexp 53 1024 (Zdigits2 (Zpos m1) + e1 - (Zdigits2 (Zpos m2) + e2)).
Proof.
  unfold SFdiv_core_binary.
  set (e' := Z.min _ _).
  set (s := e1 - e2 - e').
  set (m' := match s with Z.pos _ => Z.shiftl (Zpos m1) s | 0 => Zpos m1 | Z.neg _ => 0 end).
  assert (Hs : 0 <= s) by (unfold s, e'; lia).
  assert (Hm : m' = Zpos m1 * 2 ^ s).
  { unfold m'. destruct s as [|p|p] eqn:E.
    - simpl. lia.
    - rewrite Z.shiftl_mul_pow2 by lia. reflexivity.
    - lia. }
  destruct (Z.div_eucl m' (Zpos m2)) as [q r] eqn:Hd.
  fold s. split; [exact Hs|]. split.
  - rewrite <- Hm. unfold Z.div. now rewrite Hd.
  - unfold e'. lia.
Qed.

Lemma ddiv_d58_shape (s : bool) (x : spec_float) : signed s x -> signed s (ddiv x d58).
Proof.
  rewrite d58_eq. destruct x as [s'|s'| |s' m e]; simpl; try tauto.
  - intros <-. now destruct s'.
  - intros <-. now destruct s'.
  - intros <-. unfold ddiv, SFdiv.
    pose proof (div_core_quotient m e 8162774324609024 (-47)) as H.
    destruct (SFdiv_core_binary 53 1024 (Zpos m) e (Zpos 8162774324609024) (-47)) as [[q e'] lz].
    destruct H as (Hs & Hq & _).
    replace (xorb s' false) with s' by now destruct s'.
    apply binary_round_aux_shape. rewrite Hq. apply Z.div_pos; lia.
Qed.

Lemma ddiv_d58_size (k : Z) (x : spec_float) :
  0 <= k -> at_least k x -> at_least (k - 6) (ddiv x d58).
Proof.
  intros Hk. rewrite d58_eq. destruct x as [s'|s'| |s' m e]; try (intros; exact I).
  cbn [at_least]. intros Hx. unfold ddiv, SFdiv.
  pose proof (div_core_quotient m e 8162774324609024 (-47)) as H.
  destruct (SFdiv_core_binary 53 1024 (Zpos m) e (Zpos 8162774324609024) (-47)) as [[q e'] lz].
  destruct H as (Hs & Hq & He).
  rewrite Zdigits2_log2 in He.
  change (Zdigits2 (Zpos 8162774324609024)) with 53 in He.
  unfold fexp, emin in He.
  set (s := e - -47 - e') in *.
  set (L := Z.log2 (Zpos m) + s).
  assert (HL : Z.log2 (Zpos m * 2 ^ s) = L).
  { rewrite <- Z.shiftl_mul_pow2 by lia. rewrite Z.log2_shiftl by lia. reflexivity. }
  assert (H53 : 53 <= L) by (unfold L, s; lia).
  assert (Hlow : 2 ^ (L - 53) <= q).
  { rewrite Hq. apply Z.div_le_lower_bound; [lia|].
    transitivity (2 ^ 53 * 2 ^ (L - 53)).
    - apply Z.mul_le_mono_nonneg_r; [apply Z.pow_nonneg; lia|]. 
      change (2 ^ 53) with 9007199254740992. lia.
    - rewrite <- Z.pow_add_r by lia. replace (53 + (L - 53)) with L by lia.
      rewrite <- HL. apply Z.log2_spec. 
      apply Z.mul_pos_pos; [lia|]. apply Z.pow_pos_nonneg; lia. }
  assert (Hq0 : 0 < q).
  { apply Z.lt_le_trans with (2 ^ (L - 53)); [apply Z.pow_pos_nonneg; lia|exact Hlow]. }
  destruct q as [|pq|pq]; try lia.
  apply binary_round_aux_size.
  apply Z.log2_le_mono in Hlow. rewrite Z.log2_pow2 in Hlow by lia.
  unfold L, s in Hlow. lia.
Qed.

Lemma double_of_int_shape (d : Z) : signed (d <? 0) (double_of_int d).
Proof.
  unfold double_of_int, binary_normalize. destruct d as [|p|p]; simpl Z.ltb.
  - reflexivity.
  - apply binary_round_shape.
  - apply binary_round_shape.
Qed.

Lemma double_of_int_size (d : Z) : 0 < d -> at_least (Z.log2 d) (double_of_int d).
Proof.
  intros Hd. destruct d as [|p|p]; try lia.
  unfold double_of_int, binary_normalize. apply binary_round_size. lia.
Qed.

Lemma out_of_range_negative (d : Z) : d < 0 -> out_of_range (distance_of_duration d) = true.
Proof.
  intros Hd. unfold out_of_range, distance_of_duration.
  pose proof (double_of_int_shape d) as H.
  replace (d <? 0) with true in H by (symmetry; now apply Z.ltb_lt).
  apply ddiv_d58_shape in H. apply (round_to_shape 24 128) in H.
  apply (round_to_shape 53 1024) in H.
  fold float_of_double in H. fold double_of_float in H.
  destruct (double_of_float _) as [s|s| |s m e]; simpl in H; try tauto; subst s; reflexivity.
Qed.

Lemma out_of_range_far (d : Z) : 2 ^ 15 <= d -> out_of_range (distance_of_duration d) = true.
Proof.
  intros Hd. unfold out_of_range, distance_of_duration.
  pose proof (double_of_int_shape d) as H.
  replace (d <? 0) with false in H by (symmetry; apply Z.ltb_ge; lia).
  pose proof (double_of_int_size d ltac:(lia)) as K.
  assert (K15 : at_least 15 (double_of_int d)).
  { assert (15 <= Z.log2 d) by (apply Z.log2_le_pow2; lia).
    destruct (double_of_int d); cbn [at_least] in *; try exact I. lia. }
  apply ddiv_d58_shape in H. apply ddiv_d58_size in K15; [|lia].
  apply (round_to_shape 24 128) in H. apply (round_to_size 24 128) in K15 as [K9 _].
  apply (round_to_shape 53 1024) in H. apply (round_to_size 53 1024) in K9 as [_ KE].
  fold float_of_double in H, KE. fold double_of_float in H, KE.
  destruct (float_of_double _) as [s|s| |s m e] eqn:Ez.
  - simpl in H. subst s. reflexivity.
  - simpl in H. subst s. reflexivity.
  - simpl in H. tauto.
  - destruct (double_of_float _) as [s'|s'| |s' m' e'] eqn:Ep; simpl in H; try tauto; subst s';
      try reflexivity.
    cbn [exponent_from] in KE. apply orb_true_iff. right.
      unfold dlt, SFltb, d400. cbn [double_of_int binary_normalize]. 
      change (binary_round 53 1024 false 400 0) with (S754_finite false 7036874417766400 (-44)).
      cbn [SFcompare]. destruct (Z.compare_spec (-44) e'); first [reflexivity|lia].
Qed.

(* ===================================================================== *)
(** ** The conversion and the range check, over all durations *)
(* ===================================================================== *)

Lemma all_from_spec (P : Z -> bool) (n : nat) :
  forall lo, all_from P lo n = true ->
  forall d, lo <= d < lo + Z.of_nat n -> P d = true.
Proof.
  induction n as [|n IH]; intros lo H d Hd; [lia|].
  cbn [all_from] in H. apply andb_prop in H as [H0 H1].
  destruct (Z.eq_dec d lo) as [->|Hne]; [exact H0|].
  apply (IH (lo + 1) H1). lia.
Qed.

(** The three exhaustive checks: every duration from 58 to 23200 us is
    accepted, within tolerance; every one from 0 to 57 and from 23201 to
    32767 is rejected. *)
Lemma accepted_58_23200 : all_from accepted 58 (Z.to_nat 23143) = true.
Proof. vm_cast_no_check (eq_refl true). Qed.

Lemma rejected_0_57 : all_from rejected 0 (Z.to_nat 58) = true.
Proof. vm_cast_no_check (eq_refl true). Qed.

Lemma rejected_23201_32767 : all_from rejected 23201 (Z.to_nat 9567) = true.
Proof. vm_cast_no_check (eq_refl true). Qed.

Lemma accepted_in_range (d : Z) : 58 <= d <= 23200 -> accepted d = true.
Proof.
  intros H. apply (all_from_spec accepted _ _ accepted_58_23200). lia.
Qed.

Lemma rejected_out_of_range (d : Z) : d < 58 \/ 23200 < d -> rejected d = true.
Proof.
  intros H. unfold rejected.
  destruct (Z.lt_ge_cases d 0) as [Hn|Hp]; [now apply out_of_range_negative|].
  destruct (Z.le_gt_cases (2 ^ 15) d) as [Hf|Hm]; [now apply out_of_range_far|].
  change (2 ^ 15) with 32768 in Hm.
  destruct H as [H|H].
  - apply (all_from_spec rejected _ _ rejected_0_57). lia.
  - apply (all_from_spec rejected _ _ rejected_23201_32767). lia.
Qed.

Lemma checked_in_range (d : Z) :
  58 <= d <= 23200 -> checked (distance_of_duration d) = distance_of_duration d.
Proof.
  intros H. apply accepted_in_range in H. unfold accepted in H.
  repeat (apply andb_prop in H as [H ?]). apply negb_true_iff in H.
  unfold checked. now rewrite H.
Qed.

Lemma checked_out_of_range (d : Z) :
  d < 58 \/ 23200 < d -> checked (distance_of_duration d) = minus_one.
Proof.
  intros H. apply rejected_out_of_range in H. unfold rejected in H.
  unfold checked. now rewrite H.
Qed.

Lemma Qleb_le (a b : Q) : Qleb a b = true -> (a <= b)%Q.
Proof. unfold Qleb, Qle. apply Z.leb_le. Qed.

(** The bounds of the specification, [1.0 <= d/58.0 <= 400.0], on [d]. *)
Lemma exact_cm_ge_1 (d : Z) : (1 <= exact_cm d)%Q <-> 58 <= d.
Proof. unfold exact_cm, Qle, Qdiv, Qmult, Qinv; simpl. lia. Qed.

Lemma exact_cm_le_400 (d : Z) : (exact_cm d <= 400)%Q <-> d <= 23200.
Proof. unfold exact_cm, Qle, Qdiv, Qmult, Qinv; simpl. lia. Qed.

Lemma exact_cm_lt_1 (d : Z) : (exact_cm d < 1)%Q <-> d < 58.
Proof. unfold exact_cm, Qlt, Qdiv, Qmult, Qinv; simpl. lia. Qed.

Lemma exact_cm_gt_400 (d : Z) : (400 < exact_cm d)%Q <-> 23200 < d.
Proof. unfold exact_cm, Qlt, Qdiv, Qmult, Qinv; simpl. lia. Qed.

(** Every value the range check lets through is a distance from 1 to 400,
    and everything else becomes -1.0. *)
Lemma checked_cases (d : Z) :
  checked (distance_of_duration d) = minus_one \/
  (checked (distance_of_duration d) = distance_of_duration d /\ 58 <= d <= 23200).
Proof.
  destruct (Z.lt_ge_cases d 58) as [H|H]; [left; apply checked_out_of_range; lia|].
  destruct (Z.lt_ge_cases 23200 d) as [H'|H']; [left; apply checked_out_of_range; lia|].
  right. split; [apply checked_in_range|]; lia.
Qed.

(* ===================================================================== *)
(** ** Nothing but the trigger pulse is played during a call *)
(* ===================================================================== *)

Section Quiet.

Variable fuel : nat.

Lemma quiet_ret {R : Type} (r : R) : quiet fuel (Ret r : itree hwE R).
Proof. intros [|n] w _; reflexivity. Qed.

Lemma quiet_bind {R U : Type} (t : itree hwE R) (k : R -> itree hwE U) :
  quiet fuel t -> (forall x, quiet fuel (k x)) -> quiet fuel (t >>= k).
Proof.
  intros Ht Hk n w Hn.
  destruct (exec_bind_cases k n t w) as [(w1 & H1 & H2)|(c & x & w1 & Hc & _ & H0 & H2)].
  - rewrite H2. rewrite <- (Ht n w Hn), H1. reflexivity.
  - replace n with (c + (n - c))%nat by lia. rewrite H2.
    rewrite (Hk x (n - c)%nat w1) by lia.
    rewrite <- (Ht c w) by lia. now rewrite H0.
Qed.

Lemma quiet_read {R : Type} (e : hwE R) :
  (forall w, actions (snd (handle e w)) = actions w) -> quiet fuel (ITree.trigger e).
Proof.
  intros He [|[|n]] w _; [reflexivity| |].
  - rewrite exec_S. simpl observe. cbv iota. destruct (handle e w) as [x w1] eqn:E.
    simpl. specialize (He w). now rewrite E in He.
  - rewrite exec_trigger. apply He.
Qed.

Lemma quiet_iter {R I : Type} (body : I -> itree hwE (I + R)) :
  (forall i, quiet fuel (body i)) -> forall i, quiet fuel (ITree.iter body i).
Proof.
  intros Hb i n. revert i.
  induction n as [n IH] using lt_wf_ind. intros i w Hn.
  rewrite (exec_observe _ _ _ _ (observing_observe (unfold_aloop_ body i))).
  set (k := fun lr : I + R =>
              match lr with inl l => Tau (ITree.iter body l) | inr r => Ret r end).
  destruct (exec_bind_cases k n (body i) w) as [(w1 & H1 & H2)|(c & x & w1 & Hc & _ & H0 & H2)].
  - fold k. rewrite H2. rewrite <- (Hb i n w Hn), H1. reflexivity.
  - fold k. replace n with (c + (n - c))%nat by lia. rewrite H2.
    assert (Hw : actions w1 = actions w).
    { rewrite <- (Hb i c w) by lia. now rewrite H0. }
    rewrite <- Hw. destruct x as [j|r]; unfold k.
    + destruct (n - c)%nat as [|m] eqn:Em; [reflexivity|].
      rewrite exec_tau. apply IH; lia.
    + apply quiet_ret. lia.
Qed.

Lemma quiet_poll_echo (cond : bool -> bool) (start timeout : Z) :
  quiet fuel (poll_echo cond start timeout).
Proof.
  apply quiet_iter. intros _.
  apply quiet_bind; [now apply quiet_read|]. intros level.
  destruct (cond level); [|apply quiet_ret].
  apply quiet_bind; [now apply quiet_read|]. intros now.
  destruct (sub_u32 now start >? timeout); apply quiet_ret.
Qed.

Lemma quiet_after_trigger : quiet fuel after_trigger.
Proof.
  unfold after_trigger.
  apply quiet_bind; [now apply quiet_read|]. intros start_time.
  apply quiet_bind; [apply quiet_poll_echo|]. intros [v|]; [apply quiet_ret|].
  unfold after_rise.
  apply quiet_bind; [now apply quiet_read|]. intros start.
  apply quiet_bind; [now apply quiet_read|]. intros start_time'.
  apply quiet_bind; [apply quiet_poll_echo|]. intros [v|]; [apply quiet_ret|].
  unfold after_fall.
  apply quiet_bind; [now apply quiet_read|]. intros end_.
  cbv zeta. destruct (_ || _); apply quiet_ret.
Qed.

End Quiet.

(** At every moment of a call, returned or not, the actions performed so far
    are the first steps of the trigger pulse, and all of it after five. *)
Lemma actions_during_call (fuel : nat) (w : board) :
  actions (board_of (exec fuel get_reading_sensor w)) =
  actions w ++ firstn fuel trigger_pulse.
Proof.
  destruct (Nat.lt_ge_cases fuel 5) as [H|H].
  - rewrite get_reading_sensor_stages. unfold write_trig_pin.
    do 5 (destruct fuel as [|fuel];
          [cbn [exec board_of]; rewrite ?act_advance, ?advance_advance; simpl;
           rewrite ?app_nil_r; reflexivity
          |rewrite exec_bind_trigger; cbn [handle fst snd]]).
    lia.
  - replace fuel with (5 + (fuel - 5))%nat at 1 by lia.
    rewrite exec_trigger_pulse, (quiet_after_trigger (fuel - 5)) by lia.
    rewrite firstn_all2 by (simpl; lia). reflexivity.
Qed.

Lemma writes_to_app (gpio : Z) (l l' : list action) :
  writes_to gpio (l ++ l') = writes_to gpio l ++ writes_to gpio l'.
Proof.
  induction l as [|a l IH]; [reflexivity|].
  destruct a; cbn [app writes_to]; try exact IH.
  destruct (gpio0 =? gpio); cbn [app]; now rewrite IH.
Qed.

Lemma console_app (l l' : list action) : console (l ++ l') = console l ++ console l'.
Proof.
  induction l as [|a l IH]; [reflexivity|].
  destruct a; cbn [app console]; try exact IH. now rewrite IH.
Qed.

(* ===================================================================== *)
(** ** Calls on boards that offer the same inputs *)
(* ===================================================================== *)

Section SameInputs.

Variable shift : Z.
Variables w1 w2 : board.
Hypothesis same : same_inputs shift w1 w2.

Lemma same_elapsed (a b : nat) :
  sub_u32 (us32_at w2 a) (us32_at w2 b) = sub_u32 (us32_at w1 a) (us32_at w1 b).
Proof.
  destruct same as [_ Ht]. unfold sub_u32, us32_at. rewrite !Ht.
  rewrite !Zminus_mod_idemp_l, !Zminus_mod_idemp_r. f_equal. lia.
Qed.

Lemma same_duration (a b : nat) :
  absolute_time_diff_us (us64_at w2 a) (us64_at w2 b) =
  absolute_time_diff_us (us64_at w1 a) (us64_at w1 b).
Proof.
  destruct same as [_ Ht]. unfold absolute_time_diff_us, to_int64, us64_at. rewrite !Ht.
  f_equal.
  rewrite <- (Zplus_mod_idemp_l (_ - _)), <- (Zplus_mod_idemp_l (_ mod _ - _ mod _)).
  f_equal. f_equal.
  rewrite !Zminus_mod_idemp_l, !Zminus_mod_idemp_r. f_equal. lia.
Qed.

Lemma same_keeps_waiting (cond : bool -> bool) (e0 t0 s n : nat) :
  keeps_waiting cond w2 e0 t0 (us32_at w2 s) n = keeps_waiting cond w1 e0 t0 (us32_at w1 s) n.
Proof.
  unfold keeps_waiting. destruct same as [He _].
  induction (seq 0 n) as [|k ks IH]; [reflexivity|].
  cbn [forallb]. now rewrite IH, He, same_elapsed.
Qed.

Lemma same_times_out (cond : bool -> bool) (e0 t0 s n : nat) :
  times_out cond w2 e0 t0 (us32_at w2 s) n = times_out cond w1 e0 t0 (us32_at w1 s) n.
Proof.
  unfold times_out. rewrite same_keeps_waiting, same_elapsed.
  destruct same as [He _]. now rewrite He.
Qed.

Lemma same_sees_edge (cond : bool -> bool) (e0 t0 s n : nat) :
  sees_edge cond w2 e0 t0 (us32_at w2 s) n = sees_edge cond w1 e0 t0 (us32_at w1 s) n.
Proof.
  unfold sees_edge. rewrite same_keeps_waiting.
  destruct same as [He _]. now rewrite He.
Qed.

Lemma same_reading (r : spec_float) (w1' : board) :
  reading w1 r w1' -> exists w2', reading w2 r w2'.
Proof.
  intros [n H|n1 n2 H|n1 n2 H].
  - eexists. apply (reading_no_echo w2 n).
    unfold no_echo in *. now rewrite same_times_out.
  - eexists. apply (reading_echo_stuck w2 n1 n2).
    unfold echo_stuck, echo_rises in *. now rewrite same_sees_edge, same_times_out.
  - replace (pulse_us w1 n1 n2) with (pulse_us w2 n1 n2)
      by (unfold pulse_us, start_stamp, end_stamp; apply same_duration).
    eexists. apply (reading_pulse w2 n1 n2).
    unfold echo_falls, echo_rises in *. now rewrite !same_sees_edge.
Qed.

End SameInputs.

(* ===================================================================== *)
(** ** The main loop *)
(* ===================================================================== *)

Lemma render_distance (x : spec_float) :
  render ("Distance: %.2f cm" ++ LF) (Some x) = ("Distance: " ++ fixed2 x ++ " cm" ++ LF)%string.
Proof. reflexivity. Qed.

Lemma render_banner :
  render ("Ultrasonic Sensor HC-SR04" ++ LF) None = ("Ultrasonic Sensor HC-SR04" ++ LF)%string.
Proof. reflexivity. Qed.

Lemma distance_line_minus_one : distance_line minus_one = ("Distance: -1.00 cm" ++ LF)%string.
Proof. reflexivity. Qed.

Lemma main_cycle_returns (w w1 : board) (v : spec_float) :
  returns get_reading_sensor w v w1 ->
  returns main_cycle w tt (advance w1 0 0 [] (report v)).
Proof.
  intros H. unfold main_cycle.
  eapply returns_bind; [exact H|].
  eapply returns_bind; [apply returns_trigger|].
  cbn [handle fst snd]. rewrite render_distance.
  replace (advance w1 0 0 [] (report v))
    with (snd (handle (sleep_ms 1000) (act (Console (distance_line v)) w1))).
  - apply (returns_trigger (sleep_ms 1000)).
  - cbn [handle snd]. rewrite !act_advance, advance_advance. reflexivity.
Qed.

Lemma exec_startup (m : nat) (w : board) :
  exec (7 + m) main w = exec m main_loop (advance w 0 0 [] startup).
Proof.
  unfold main. change (7 + m)%nat with (S (S (S (S (S (S (S m))))))).
  rewrite !exec_bind_trigger. cbn [handle fst snd]. rewrite render_banner.
  rewrite !act_advance, !advance_advance. reflexivity.
Qed.

Section Forever.

Context {R : Type}.
Variable body : itree hwE R.

Lemma exec_forever (n : nat) (w : board) :
  exec n (ITree.forever body : itree hwE Z) w =
  exec n (body >>= fun _ => Tau (ITree.forever body)) w.
Proof. apply exec_observe. apply (observing_observe (unfold_forever_ body)). Qed.

(** A completed turn brings the loop back to its head. *)
Lemma forever_again (w w1 : board) (x : R) :
  returns body w x w1 ->
  exists c, forall m,
    exec (c + m) (ITree.forever body : itree hwE Z) w = exec m (ITree.forever body) w1.
Proof.
  intros [n H].
  destruct (exec_bind_cases (fun _ : R => Tau (ITree.forever body : itree hwE Z)) n body w)
    as [(w2 & H2 & _)|(c & y & w2 & Hc & Hr & _ & Hk)].
  - rewrite H2 in H. discriminate.
  - apply exec_mono with (m := (S c + n)%nat) in H; [|lia].
    apply exec_mono with (m := (S c + n)%nat) in Hr; [|lia].
    rewrite H in Hr. inversion Hr; subst y w2.
    exists (S c). intros m. rewrite exec_forever.
    replace (S c + m)%nat with (c + S m)%nat by lia.
    rewrite Hk. apply exec_tau.
Qed.

(** The loop itself never returns. *)
Lemma forever_running (n : nat) :
  forall w, exists w', exec n (ITree.forever body : itree hwE Z) w = Running w'.
Proof.
  induction n as [n IH] using lt_wf_ind. intros w.
  rewrite exec_forever.
  destruct (exec_bind_cases (fun _ : R => Tau (ITree.forever body : itree hwE Z)) n body w)
    as [(w2 & _ & H2)|(c & y & w2 & Hc & _ & _ & Hk)].
  - now exists w2.
  - replace n with (c + (n - c))%nat by lia. rewrite Hk.
    destruct (n - c)%nat as [|m] eqn:Em; [now exists w2|].
    rewrite exec_tau. apply IH. lia.
Qed.

End Forever.

Lemma main_loop_cycles (n : nat) (w w' : board) :
  cycles n w w' ->
  exists c, forall m, exec (c + m) main_loop w = exec m main_loop w'.
Proof.
  induction 1 as [w|n w w1 w' v Hv _ [c IH]].
  - now exists 0%nat.
  - destruct (forever_again main_cycle _ _ _ (main_cycle_returns _ _ _ Hv)) as [c1 H1].
    exists (c1 + c)%nat. intros m. unfold main_loop in *.
    rewrite <- Nat.add_assoc, H1. apply IH.
Qed.

(* ===================================================================== *)
(** ** A wait on a line that does not move ends by the timeout *)
(* ===================================================================== *)

Section Advancing.

Variable w : board.
Hypothesis advancing : clock_advances w.

Let T (k : nat) : Z := timer_script w (ticks w + k).

Lemma elapsed_grows (s k : nat) : Z.of_nat k <= T (s + k) - T s.
Proof.
  induction k as [|k IH].
  - rewrite Nat.add_0_r. lia.
  - pose proof (advancing (s + k)%nat) as H.
    replace (s + S k)%nat with (S (s + k)) by lia. unfold T in *. lia.
Qed.

Lemma elapsed_exact (s k : nat) :
  T (s + k) - T s < 2 ^ 32 ->
  sub_u32 (us32_at w (s + k)) (us32_at w s) = T (s + k) - T s.
Proof.
  intros H. pose proof (elapsed_grows s k) as Hg.
  unfold sub_u32, us32_at. fold (T (s + k)) (T s).
  rewrite Zminus_mod_idemp_l, Zminus_mod_idemp_r.
  apply Z.mod_small. lia.
Qed.

(** Within any number of reads, either one of them is the first beyond the
    timeout or all of them are within it. *)
Lemma first_late (s N : nat) :
  (exists n, (n <= N)%nat /\
             (forall k, (k < n)%nat -> T (S s + k) - T s <= echo_timeout) /\
             T (S s + n) - T s > echo_timeout) \/
  (forall k, (k <= N)%nat -> T (S s + k) - T s <= echo_timeout).
Proof.
  induction N as [|N [(n & Hn & Hb & Hl)|Hall]].
  - destruct (Z_le_gt_dec (T (S s + 0) - T s) echo_timeout) as [Hle|Hgt].
    + right. intros k Hk. replace k with 0%nat by lia. exact Hle.
    + left. exists 0%nat. split; [lia|]. split; [intros k Hk; lia|exact Hgt].
  - left. exists n. split; [lia|]. now split.
  - destruct (Z_le_gt_dec (T (S s + S N) - T s) echo_timeout) as [Hle|Hgt].
    + right. intros k Hk. destruct (Nat.eq_dec k (S N)) as [->|Hne]; [exact Hle|].
      apply Hall. lia.
    + left. exists (S N). split; [lia|]. split; [|exact Hgt].
      intros k Hk. apply Hall. lia.
Qed.

Lemma waits_until_timeout (cond : bool -> bool) (e0 s : nat) :
  (forall k, sub_u32 (us32_at w (s + k)) (us32_at w s) <= echo_timeout ->
             cond (echo_at w (e0 + k)) = true) ->
  exists n, times_out cond w e0 (S s) (us32_at w s) n = true.
Proof.
  intros Hecho.
  destruct (first_late s (Z.to_nat echo_timeout)) as [(n & _ & Hb & Hl)|Hall].
  - assert (Hprev : forall k, (k <= n)%nat -> 0 <= T (s + k) - T s <= echo_timeout).
    { intros k Hk. pose proof (elapsed_grows s k). split; [lia|].
      destruct k as [|k]; [rewrite Nat.add_0_r; unfold echo_timeout; lia|].
      rewrite Nat.add_succ_r. apply (Hb k). lia. }
    assert (Hcond : forall k, (k <= n)%nat -> cond (echo_at w (e0 + k)) = true).
    { intros k Hk. apply Hecho. specialize (Hprev k Hk).
      rewrite elapsed_exact; unfold echo_timeout in *; lia. }
    exists n. unfold times_out. rewrite Hcond by lia.
    assert (Hlast : sub_u32 (us32_at w (S s + n)) (us32_at w s) = T (S s + n) - T s).
    { pose proof (advancing (s + n)%nat) as Ha. specialize (Hprev n (Nat.le_refl n)).
      replace (S s + n)%nat with (s + S n)%nat by lia.
      apply elapsed_exact.
      replace (s + S n)%nat with (S (s + n)) by lia.
      unfold T, echo_timeout in *. lia. }
    rewrite Hlast.
    replace (T (S s + n) - T s >? echo_timeout) with true by (symmetry; apply Z.gtb_lt; lia).
    rewrite !andb_true_r. unfold keeps_waiting. apply forallb_forall.
    intros k Hk. apply in_seq in Hk. rewrite Hcond by lia. cbn [andb].
    apply Z.leb_le.
    replace (S s + k)%nat with (s + S k)%nat by lia.
    specialize (Hprev (S k) ltac:(lia)). rewrite elapsed_exact; unfold echo_timeout in *; lia.
  - exfalso. specialize (Hall (Z.to_nat echo_timeout) (Nat.le_refl _)).
    pose proof (elapsed_grows s (S (Z.to_nat echo_timeout))) as Hg.
    replace (S s + Z.to_nat echo_timeout)%nat with (s + S (Z.to_nat echo_timeout))%nat
      in Hall by lia.
    unfold echo_timeout in *. lia.
Qed.

End Advancing.

(* ===================================================================== *)
(** ** Facts shared by the theorems *)
(* ===================================================================== *)

Lemma minus_one_value : (to_Q minus_one == -1)%Q.
Proof. reflexivity. Qed.

Lemma returns_actions (w w' : board) (r : spec_float) :
  returns get_reading_sensor w r w' -> actions w' = actions w ++ trigger_pulse.
Proof.
  intros H. apply returns_reading in H. destruct H; reflexivity.
Qed.

Lemma trigger_pulse_writes : writes_to TRIG_PIN trigger_pulse = [false; true; false].
Proof. reflexivity. Qed.

Lemma keeps_waiting_snoc (cond : bool -> bool) (w : board) (e0 t0 : nat) (start : Z) (n : nat) :
  keeps_waiting cond w e0 t0 start (n + 1) =
  keeps_waiting cond w e0 t0 start n
  && (cond (echo_at w (e0 + n)) && (sub_u32 (us32_at w (t0 + n)) start <=? echo_timeout)).
Proof.
  unfold keeps_waiting. rewrite seq_app, forallb_app. cbn [seq forallb Nat.add].
  now rewrite andb_true_r.
Qed.

Lemma failed_reading (w : board) :
  timed_out w \/ range_rejected w -> exists w', reading w minus_one w'.
Proof.
  intros [[[n H]|(n1 & n2 & H)]|(n1 & n2 & H & Hr)].
  - eexists. apply (reading_no_echo w n H).
  - eexists. apply (reading_echo_stuck w n1 n2 H).
  - eexists. pose proof (reading_pulse w n1 n2 H) as Hp.
    unfold checked in Hp. rewrite Hr in Hp. exact Hp.
Qed.

Lemma cycles_actions (n : nat) (w w' : board) :
  cycles n w w' ->
  exists vs, List.length vs = n /\
             actions w' = actions w ++ flat_map (fun v => trigger_pulse ++ report v) vs.
Proof.
  induction 1 as [w|n w w1 w' v Hv _ (vs & Hl & Ha)].
  - exists []. split; [reflexivity|]. simpl. now rewrite app_nil_r.
  - exists (v :: vs). split; [simpl; now rewrite Hl|].
    rewrite Ha. cbn [advance actions flat_map].
    rewrite (returns_actions _ _ _ Hv), <- !app_assoc. reflexivity.
Qed.

(* ===================================================================== *)
(** ** The waits always end on a board whose timer moves on *)
(* ===================================================================== *)

Lemma keeps_waiting_intro (cond : bool -> bool) (w : board) (e0 t0 : nat) (start : Z) (n : nat) :
  (forall k, (k < n)%nat ->
     cond (echo_at w (e0 + k)) = true /\
     sub_u32 (us32_at w (t0 + k)) start <= echo_timeout) ->
  keeps_waiting cond w e0 t0 start n = true.
Proof.
  intros H. unfold keeps_waiting. apply forallb_forall. intros k Hk.
  apply in_seq in Hk. destruct (H k ltac:(lia)) as [Hc Ht].
  rewrite Hc. cbn [andb]. now apply Z.leb_le.
Qed.

Lemma keeps_waiting_elim (cond : bool -> bool) (w : board) (e0 t0 : nat) (start : Z) (n k : nat) :
  keeps_waiting cond w e0 t0 start n = true -> (k < n)%nat ->
  cond (echo_at w (e0 + k)) = true /\
  sub_u32 (us32_at w (t0 + k)) start <= echo_timeout.
Proof.
  intros H Hk. unfold keeps_waiting in H. rewrite forallb_forall in H.
  specialize (H k). rewrite in_seq in H. specialize (H ltac:(lia)).
  apply andb_prop in H as [Hc Ht]. split; [exact Hc|now apply Z.leb_le].
Qed.

(** The first [N + 1] values of a test are all true, or one is the first
    false one. *)
Lemma first_false (f : nat -> bool) (N : nat) :
  (exists n, (n <= N)%nat /\ (forall k, (k < n)%nat -> f k = true) /\ f n = false) \/
  (forall k, (k <= N)%nat -> f k = true).
Proof.
  induction N as [|N [(n & Hn & Hb & Hf)|Hall]].
  - destruct (f 0%nat) eqn:E.
    + right. intros k Hk. now replace k with 0%nat by lia.
    + left. exists 0%nat. repeat split; [lia|intros k Hk; lia|exact E].
  - left. exists n. repeat split; [lia|exact Hb|exact Hf].
  - destruct (f (S N)) eqn:E.
    + right. intros k Hk. destruct (Nat.eq_dec k (S N)) as [->|Hne]; [exact E|].
      apply Hall. lia.
    + left. exists (S N). repeat split; [lia| |exact E].
      intros k Hk. apply Hall. lia.
Qed.

Section Ending.

Variable w : board.
Hypothesis advancing : clock_advances w.

(** Some timer read, among the first 38001 after the one that armed the
    loop, is the first beyond the timeout, as the loop computes it. *)
Lemma first_late_read (s : nat) :
  exists n, (n <= Z.to_nat echo_timeout)%nat /\
    (forall k, (k < n)%nat ->
       sub_u32 (us32_at w (S s + k)) (us32_at w s) <= echo_timeout) /\
    sub_u32 (us32_at w (S s + n)) (us32_at w s) > echo_timeout.
Proof.
  destruct (first_late w s (Z.to_nat echo_timeout)) as [(n & Hn & Hb & Hl)|Hall].
  - assert (Hprev : forall k, (k <= n)%nat ->
              0 <= timer_at w (s + k) - timer_at w s <= echo_timeout).
    { intros k Hk. pose proof (elapsed_grows w advancing s k) as Hg.
      unfold timer_at. split; [lia|].
      destruct k as [|k]; [rewrite Nat.add_0_r; unfold echo_timeout; lia|].
      rewrite Nat.add_succ_r. apply (Hb k). lia. }
    exists n. split; [exact Hn|]. split.
    + intros k Hk. specialize (Hprev (S k) ltac:(lia)). unfold timer_at in Hprev.
      replace (S s + k)%nat with (s + S k)%nat by lia.
      rewrite (elapsed_exact w advancing); unfold echo_timeout in *; lia.
    + pose proof (advancing (s + n)%nat) as Ha. specialize (Hprev n (Nat.le_refl n)).
      unfold timer_at in Hprev.
      replace (S s + n)%nat with (s + S n)%nat in * by lia.
      rewrite (elapsed_exact w advancing).
      * exact Hl.
      * replace (s + S n)%nat with (S (s + n)) by lia. unfold echo_timeout in *. lia.
  - exfalso. specialize (Hall (Z.to_nat echo_timeout) (Nat.le_refl _)).
    pose proof (elapsed_grows w advancing s (S (Z.to_nat echo_timeout))) as Hg.
    replace (S s + Z.to_nat echo_timeout)%nat with (s + S (Z.to_nat echo_timeout))%nat
      in Hall by lia.
    unfold echo_timeout in *. lia.
Qed.

(** Whatever the line does, a polling loop sees its edge or times out
    within 38001 polls. *)
Lemma poll_ends (cond : bool -> bool) (e0 s : nat) :
  exists n, (n <= Z.to_nat echo_timeout)%nat /\
    (sees_edge cond w e0 (S s) (us32_at w s) n = true \/
     times_out cond w e0 (S s) (us32_at w s) n = true).
Proof.
  destruct (first_late_read s) as (n0 & Hn0 & Hin & Hlate).
  destruct (first_false (fun k => cond (echo_at w (e0 + k))) n0)
    as [(n & Hn & Hb & Hf)|Hall].
  - exists n. split; [lia|]. left. unfold sees_edge. rewrite Hf.
    rewrite keeps_waiting_intro; [reflexivity|].
    intros k Hk. split; [now apply Hb|]. apply Hin. lia.
  - exists n0. split; [exact Hn0|]. right. unfold times_out.
    rewrite (Hall n0 (Nat.le_refl _)), keeps_waiting_intro.
    + cbn [andb]. apply Z.gtb_lt. lia.
    + intros k Hk. split; [apply Hall; lia|now apply Hin].
Qed.

(** A call ends, and each of its waits within 38001 polls. *)
Lemma reading_exists :
  exists r w', reading w r w' /\
    ((exists n, Z.of_nat n <= echo_timeout /\ no_echo w n = true
                /\ reads w' = (reads w + (n + 1))%nat
                /\ ticks w' = (ticks w + (n + 2))%nat)
     \/ (exists n1 n2, Z.of_nat n1 <= echo_timeout /\ Z.of_nat n2 <= echo_timeout
                /\ echo_rises w n1 = true
                /\ (echo_stuck w n1 n2 = true \/ echo_falls w n1 n2 = true)
                /\ reads w' = (reads w + (n1 + 1) + (n2 + 1))%nat
                /\ ticks w' = (ticks w + (n1 + 2) + (n2 + 2))%nat)).
Proof.
  destruct (poll_ends negb 0 0) as (n1 & Hn1 & [H1|H1]).
  - destruct (poll_ends (fun level => level) (n1 + 1) (n1 + 2)) as (n2 & Hn2 & [H2|H2]);
      replace (S (n1 + 2)) with (n1 + 3)%nat in H2 by lia.
    + eexists. eexists. split.
      * apply (reading_pulse w n1 n2). unfold echo_falls, echo_rises. now rewrite H1, H2.
      * right. exists n1, n2. cbn [advance reads ticks]. unfold echo_timeout in Hn1, Hn2 |- *.
        split; [lia|]. split; [lia|]. split; [exact H1|]. split; [|split; lia].
        right. unfold echo_falls, echo_rises. now rewrite H1, H2.
    + eexists. eexists. split.
      * apply (reading_echo_stuck w n1 n2). unfold echo_stuck, echo_rises. now rewrite H1, H2.
      * right. exists n1, n2. cbn [advance reads ticks]. unfold echo_timeout in Hn1, Hn2 |- *.
        split; [lia|]. split; [lia|]. split; [exact H1|]. split; [|split; lia].
        left. unfold echo_stuck, echo_rises. now rewrite H1, H2.
  - eexists. eexists. split.
    + apply (reading_no_echo w n1). exact H1.
    + left. exists n1. cbn [advance reads ticks]. unfold echo_timeout in Hn1 |- *.
      split; [lia|]. split; [exact H1|]. split; lia.
Qed.

End Ending.

Lemma clock_advances_advance (w : board) (a b : nat) (c : list Z) (l : list action) :
  clock_advances w -> clock_advances (advance w a b c l).
Proof.
  intros H k. cbn [advance timer_script ticks].
  specialize (H (b + k)%nat).
  replace (ticks w + b + S k)%nat with (ticks w + S (b + k))%nat by lia.
  replace (ticks w + b + k)%nat with (ticks w + (b + k))%nat by lia.
  exact H.
Qed.

Lemma reading_clock_advances (w w' : board) (r : spec_float) :
  reading w r w' -> clock_advances w -> clock_advances w'.
Proof.
  intros [n H|n1 n2 H|n1 n2 H] Hc; now apply clock_advances_advance.
Qed.

Lemma cycles_exist (n : nat) :
  forall w, clock_advances w -> exists w', cycles n w w'.
Proof.
  induction n as [|n IH]; intros w Hc.
  - exists w. apply cycles_O.
  - destruct (reading_exists w Hc) as (r & w1 & Hr & _).
    destruct (IH (advance w1 0 0 [] (report r))) as [w' Hw'].
    { apply clock_advances_advance. now apply (reading_clock_advances w w1 r). }
    exists w'. eapply cycles_S; [apply reading_returns; exact Hr|exact Hw'].
Qed.

Lemma clock_advances_square (width : nat) (tick : Z) :
  1 <= tick <= 2 ^ 31 -> clock_advances (square_board width tick).
Proof.
  intros H k. cbn [square_board timer_script ticks Nat.add]. lia.
Qed.


(* ===================================================================== *)
(** ** The scenarios of the specification, run on the mock *)
(* ===================================================================== *)

Example pulse_580_shows_10 :
  console (actions (board_of (exec 40 main_cycle (pulse_board 580))))
  = [("Distance: 10.00 cm" ++ LF)%string].
Proof. vm_compute. reflexivity. Qed.

Example pulse_23200_shows_400 :
  console (actions (board_of (exec 40 main_cycle (pulse_board 23200))))
  = [("Distance: 400.00 cm" ++ LF)%string].
Proof. vm_compute. reflexivity. Qed.

Example pulse_23260_shows_sentinel :
  console (actions (board_of (exec 40 main_cycle (pulse_board 23260))))
  = [("Distance: -1.00 cm" ++ LF)%string].
Proof. vm_compute. reflexivity. Qed.

Example no_echo_shows_sentinel :
  console (actions (board_of (exec 200 main_cycle silent_board)))
  = [("Distance: -1.00 cm" ++ LF)%string].
Proof. vm_compute. reflexivity. Qed.

Example stuck_echo_shows_sentinel :
  console (actions (board_of (exec 200 main_cycle stuck_board)))
  = [("Distance: -1.00 cm" ++ LF)%string].
Proof. vm_compute. reflexivity. Qed.

Example late_echo_shows_344_83 :
  console (actions (board_of (exec 40 main_cycle late_board)))
  = [("Distance: 344.83 cm" ++ LF)%string].
Proof. vm_compute. reflexivity. Qed.

Example main_prints_banner_then_readings :
  console (actions (board_of (exec 60 main (pulse_board 580))))
  = [("Ultrasonic Sensor HC-SR04" ++ LF)%string; ("Distance: 10.00 cm" ++ LF)%string].
Proof. vm_compute. reflexivity. Qed.

(* ===================================================================== *)
(** ** The properties of the specification *)
(* ===================================================================== *)

(** C1.  A complete echo pulse whose measured duration [d] satisfies
    [1.0 <= d/58.0 <= 400.0] makes [get_reading_sensor] return the value of
    the C expression [(float)(d / 58.0)].  That value is within one part in
    [2 ^ 24] of the exact quotient [d / 58], and for [d = 580] it is exactly
    10 cm. *)
Theorem reading_of_valid_pulse (w : board) (n1 n2 : nat) (d : Z) :
  echo_falls w n1 n2 = true ->
  pulse_us w n1 n2 = d ->
  (1 <= exact_cm d)%Q ->
  (exact_cm d <= 400)%Q ->
  returns get_reading_sensor w
          (float_of_double (ddiv (double_of_int d) d58))
          (advance w (n1 + n2 + 2) (n1 + n2 + 4)
                   [start_stamp w n1; end_stamp w n1 n2] trigger_pulse)
  /\ (Qabs (to_Q (float_of_double (ddiv (double_of_int d) d58)) - exact_cm d)
      <= exact_cm d * (1 # 2 ^ 24))%Q
  /\ (d = 580 -> (to_Q (float_of_double (ddiv (double_of_int d) d58)) == 10)%Q).
Proof.
  intros Hf Hd Hlo Hhi.
  apply (proj1 (exact_cm_ge_1 d)) in Hlo. apply (proj1 (exact_cm_le_400 d)) in Hhi.
  fold (distance_of_duration d).
  split; [|split].
  - apply reading_returns.
    rewrite <- (checked_in_range d) by lia. rewrite <- Hd.
    now apply reading_pulse.
  - pose proof (accepted_in_range d (conj Hlo Hhi)) as Ha. unfold accepted in Ha.
    apply andb_prop in Ha as [_ Ha]. now apply Qleb_le.
  - intros ->. reflexivity.
Qed.

Lemma reading_of_valid_pulse_witness :
  echo_falls (pulse_board 580) 1 1 = true /\
  pulse_us (pulse_board 580) 1 1 = 580 /\
  returns get_reading_sensor (pulse_board 580)
          (float_of_double (ddiv (double_of_int 580) d58))
          (advance (pulse_board 580) 4 6 [100; 680] trigger_pulse).
Proof.
  split; [reflexivity|]. split; [reflexivity|].
  apply (reading_of_valid_pulse (pulse_board 580) 1 1 580).
  - reflexivity.
  - reflexivity.
  - unfold Qle; simpl; lia.
  - unfold Qle; simpl; lia.
Defined.

(** C2.  On any board, if the echo line is low at every poll of the first
    loop, that is at the polls [0] to [n], where the timer reads that follow
    the polls before the last are within 38000 us of the end of the trigger
    pulse and the read that follows the last is beyond it, the call returns
    -1.0 out of the first loop: it has polled [n + 1] times, read the timer
    [n + 2] times and captured no timestamp. *)
Theorem no_echo_gives_timeout (w : board) (n : nat) :
  (forall k, (k <= n)%nat -> echo_at w k = false) ->
  (forall k, (k < n)%nat ->
     sub_u32 (us32_at w (1 + k)) (us32_at w 0) <= echo_timeout) ->
  sub_u32 (us32_at w (1 + n)) (us32_at w 0) > echo_timeout ->
  exists w',
    returns get_reading_sensor w minus_one w'
    /\ (to_Q minus_one == -1)%Q
    /\ captured w' = captured w
    /\ reads w' = (reads w + (n + 1))%nat
    /\ ticks w' = (ticks w + (n + 2))%nat
    /\ actions w' = actions w ++ trigger_pulse.
Proof.
  intros He Hin Hlate.
  assert (Hn : no_echo w n = true).
  { unfold no_echo, times_out. rewrite keeps_waiting_intro.
    - cbn [Nat.add andb]. rewrite (He n (Nat.le_refl n)). cbn [negb andb].
      apply Z.gtb_lt. cbn [Nat.add] in Hlate. lia.
    - intros k Hk. split; [|now apply Hin].
      cbn [Nat.add]. now rewrite (He k) by lia. }
  exists (advance w (n + 1) (n + 2) [] trigger_pulse).
  split; [apply reading_returns; now apply reading_no_echo|].
  split; [apply minus_one_value|].
  cbn [advance captured reads ticks actions]. rewrite app_nil_r.
  repeat split.
Qed.

Lemma no_echo_gives_timeout_witness :
  sub_u32 (us32_at overdue_board 1) (us32_at overdue_board 0) > echo_timeout /\
  exists w',
    returns get_reading_sensor overdue_board minus_one w'
    /\ (to_Q minus_one == -1)%Q
    /\ captured w' = captured overdue_board
    /\ reads w' = (reads overdue_board + (0 + 1))%nat
    /\ ticks w' = (ticks overdue_board + (0 + 2))%nat
    /\ actions w' = actions overdue_board ++ trigger_pulse.
Proof.
  split; [reflexivity|].
  apply (no_echo_gives_timeout overdue_board 0).
  - intros k Hk. replace k with 0%nat by lia. reflexivity.
  - intros k Hk. lia.
  - reflexivity.
Defined.

(** C3.  On any board, once the rise has been seen at poll [n1], if the echo
    line is high at every poll of the second loop, that is at its polls [0]
    to [n2], where the timer reads that follow the polls before the last
    are within 38000 us of the read that armed the second loop and the read
    that follows the last is beyond it, the call returns -1.0 out of the
    second loop, with only the start timestamp captured.  The window is
    counted from the second wait, not from the trigger: on [late_board] the
    second loop is still polling 45 ms after the trigger and the call
    succeeds. *)
Theorem stuck_echo_gives_timeout (w : board) (n1 n2 : nat) :
  echo_rises w n1 = true ->
  (forall k, (k <= n2)%nat -> echo_at w (n1 + 1 + k) = true) ->
  (forall k, (k < n2)%nat ->
     sub_u32 (us32_at w (n1 + 3 + k)) (us32_at w (n1 + 2)) <= echo_timeout) ->
  sub_u32 (us32_at w (n1 + 3 + n2)) (us32_at w (n1 + 2)) > echo_timeout ->
  returns get_reading_sensor w minus_one
          (advance w (n1 + n2 + 2) (n1 + n2 + 4) [start_stamp w n1] trigger_pulse)
  /\ (sub_u32 (us32_at late_board 4) (us32_at late_board 0) > echo_timeout
      /\ exists v w', returns get_reading_sensor late_board v w' /\ v <> minus_one).
Proof.
  intros Hr He Hin Hlate. split.
  - apply reading_returns, reading_echo_stuck.
    unfold echo_stuck, times_out. rewrite Hr, keeps_waiting_intro.
    + rewrite (He n2 (Nat.le_refl n2)). cbn [andb].
      apply Z.gtb_lt. lia.
    + intros k Hk. split; [apply He; lia|now apply Hin].
  - split; [reflexivity|].
    eexists. eexists. split.
    + apply reading_returns. apply (reading_pulse late_board 1 1). reflexivity.
    + vm_compute. discriminate.
Qed.

Lemma stuck_echo_gives_timeout_witness :
  echo_rises overdue_fall_board 0 = true /\
  sub_u32 (us32_at overdue_fall_board 3) (us32_at overdue_fall_board 2) > echo_timeout /\
  returns get_reading_sensor overdue_fall_board minus_one
          (advance overdue_fall_board 2 4 [10] trigger_pulse).
Proof.
  split; [reflexivity|]. split; [reflexivity|].
  apply (stuck_echo_gives_timeout overdue_fall_board 0 0).
  - reflexivity.
  - intros k Hk. replace k with 0%nat by lia. reflexivity.
  - intros k Hk. lia.
  - reflexivity.
Defined.

(** C4.  A complete echo pulse whose measured duration [d] has
    [d/58.0 < 1.0] or [d/58.0 > 400.0] makes the call return -1.0 after both
    timestamps were captured.  The bounds themselves are accepted: 58 us
    reads exactly 1 cm and 23200 us exactly 400 cm; 23260 us, which converts
    to 401.03 cm, is rejected. *)
Theorem implausible_pulse_rejected (w : board) (n1 n2 : nat) (d : Z) :
  echo_falls w n1 n2 = true ->
  pulse_us w n1 n2 = d ->
  (exact_cm d < 1)%Q \/ (400 < exact_cm d)%Q ->
  returns get_reading_sensor w minus_one
          (advance w (n1 + n2 + 2) (n1 + n2 + 4)
                   [start_stamp w n1; end_stamp w n1 n2] trigger_pulse)
  /\ (exists v w', returns get_reading_sensor (pulse_board 58) v w'
                   /\ (to_Q v == 1)%Q)
  /\ (exists v w', returns get_reading_sensor (pulse_board 23200) v w'
                   /\ (to_Q v == 400)%Q)
  /\ (exists w', returns get_reading_sensor (pulse_board 23260) minus_one w')
  /\ fixed2 (double_of_float (distance_of_duration 23260)) = "401.03"%string.
Proof.
  intros Hf Hd Hr. split; [|split; [|split; [|split]]].
  - apply reading_returns.
    rewrite <- (checked_out_of_range d).
    + rewrite <- Hd. now apply reading_pulse.
    + destruct Hr as [Hr|Hr];
        [left; exact (proj1 (exact_cm_lt_1 d) Hr)|right; exact (proj1 (exact_cm_gt_400 d) Hr)].
  - eexists. eexists. split.
    + apply reading_returns. apply (reading_pulse (pulse_board 58) 1 1). reflexivity.
    + reflexivity.
  - eexists. eexists. split.
    + apply reading_returns. apply (reading_pulse (pulse_board 23200) 1 1). reflexivity.
    + reflexivity.
  - eexists. apply reading_returns.
    pose proof (reading_pulse (pulse_board 23260) 1 1 eq_refl) as H.
    exact H.
  - reflexivity.
Qed.

Lemma implausible_pulse_rejected_witness :
  echo_falls (pulse_board 23260) 1 1 = true /\
  pulse_us (pulse_board 23260) 1 1 = 23260 /\
  returns get_reading_sensor (pulse_board 23260) minus_one
          (advance (pulse_board 23260) 4 6 [100; 23360] trigger_pulse).
Proof.
  split; [reflexivity|]. split; [reflexivity|].
  apply (implausible_pulse_rejected (pulse_board 23260) 1 1 23260).
  - reflexivity.
  - reflexivity.
  - right. unfold Qlt; simpl; lia.
Defined.

(** C5.  At every moment of every call from its fifth step on, and so at
    any return whatever the outcome, the levels written to the trigger pin
    by the call are exactly low, high, low; before that they are the first
    writes of that sequence.  The last level written is low. *)
Theorem trigger_low_high_low (w : board) :
  (forall fuel, (5 <= fuel)%nat ->
     writes_to TRIG_PIN (actions (board_of (exec fuel get_reading_sensor w)))
     = writes_to TRIG_PIN (actions w) ++ [false; true; false])
  /\ (forall fuel, exists k,
        writes_to TRIG_PIN (actions (board_of (exec fuel get_reading_sensor w)))
        = writes_to TRIG_PIN (actions w) ++ firstn k [false; true; false])
  /\ (forall r w', returns get_reading_sensor w r w' ->
        writes_to TRIG_PIN (actions w')
        = writes_to TRIG_PIN (actions w) ++ [false; true; false]
        /\ last (writes_to TRIG_PIN (actions w')) true = false).
Proof.
  split; [|split].
  - intros fuel Hf. rewrite actions_during_call, writes_to_app.
    rewrite firstn_all2 by (simpl; lia). reflexivity.
  - intros fuel. rewrite actions_during_call, writes_to_app.
    destruct fuel as [|[|[|[|[|fuel]]]]].
    + now exists 0%nat.
    + now exists 1%nat.
    + now exists 1%nat.
    + now exists 2%nat.
    + now exists 2%nat.
    + exists 3%nat. now rewrite firstn_all2 by (simpl; lia).
  - intros r w' H. rewrite (returns_actions _ _ _ H), writes_to_app, trigger_pulse_writes.
    split; [reflexivity|].
    change [false; true; false] with ([false; true] ++ [false]).
    now rewrite app_assoc, last_last.
Qed.

(** C6.  A turn of the main loop whose measurement returns [v] puts exactly
    one line on the console, [Distance: <v to two decimals> cm], and then
    sleeps.  When the measurement failed, by a timeout in either wait or by
    the range check, the line is [Distance: -1.00 cm] in all cases alike. *)
Theorem cycle_prints_one_line (w w1 : board) (v : spec_float) :
  returns get_reading_sensor w v w1 ->
  returns main_cycle w tt (advance w1 0 0 [] (report v))
  /\ console (actions (advance w1 0 0 [] (report v)))
     = console (actions w)
       ++ [("Distance: " ++ fixed2 (double_of_float v) ++ " cm" ++ LF)%string]
  /\ (timed_out w \/ range_rejected w ->
      v = minus_one
      /\ ("Distance: " ++ fixed2 (double_of_float v) ++ " cm" ++ LF
          = "Distance: -1.00 cm" ++ LF)%string).
Proof.
  intros H. split; [|split].
  - now apply main_cycle_returns.
  - cbn [advance actions]. rewrite (returns_actions _ _ _ H), !console_app.
    cbn [trigger_pulse report console]. now rewrite app_nil_r.
  - intros Hf. apply failed_reading in Hf as [w' Hf].
    apply reading_returns in Hf.
    destruct (returns_det _ _ _ _ _ _ H Hf) as [-> _].
    split; reflexivity.
Qed.

Lemma cycle_prints_one_line_witness :
  returns get_reading_sensor silent_board minus_one
          (advance silent_board 39 40 [] trigger_pulse) /\
  console (actions (advance (advance silent_board 39 40 [] trigger_pulse) 0 0 []
                            (report minus_one)))
  = console (actions silent_board)
    ++ [("Distance: " ++ fixed2 (double_of_float minus_one) ++ " cm" ++ LF)%string].
Proof.
  assert (H : returns get_reading_sensor silent_board minus_one
                      (advance silent_board 39 40 [] trigger_pulse)).
  { exists 200%nat. vm_compute. reflexivity. }
  split; [exact H|].
  exact (proj1 (proj2 (cycle_prints_one_line silent_board _ minus_one H))).
Defined.

(** C7.  [main] performs its start-up, banner included, once and enters the
    loop.  Each turn of the loop whose measurement returns, whatever value
    it returns, ends back at the head of the loop after the line was
    printed and the 1000 ms pause taken; after [n] turns the actions of the
    loop are [n] times trigger pulse, console line, pause; and [main] never
    returns.  The turns do complete.  On any board whose scripts let a call
    end, with a distance or with -1.0, the loop is back at its head after
    the report of that value; a timeout in either wait and a rejection by
    the range check lead there through the line [Distance: -1.00 cm] and
    the pause like any other turn.  On a board whose timer moves on, every
    number of turns is reached. *)
Theorem main_repeats_forever (w : board) :
  (forall m, exec (7 + m) main w = exec m main_loop (advance w 0 0 [] startup))
  /\ (forall w0 v w1, returns get_reading_sensor w0 v w1 ->
        cycles 1 w0 (advance w1 0 0 [] [Console (distance_line v); Sleep_ms 1000]))
  /\ (forall n w0 w', cycles n w0 w' ->
        (exists c, forall m, exec (c + m) main_loop w0 = exec m main_loop w')
        /\ exists vs, List.length vs = n
             /\ actions w' = actions w0
                  ++ flat_map (fun v => trigger_pulse
                                 ++ [Console (distance_line v); Sleep_ms 1000]) vs)
  /\ diverges main w
  /\ (forall w0 v w1, reading w0 v w1 ->
        exists c, forall m,
          exec (c + m) main_loop w0
          = exec m main_loop
                 (advance w1 0 0 [] [Console (distance_line v); Sleep_ms 1000]))
  /\ (forall w0, timed_out w0 \/ range_rejected w0 ->
        exists w1 c,
          actions w1 = actions w0 ++ trigger_pulse
          /\ forall m,
               exec (c + m) main_loop w0
               = exec m main_loop
                      (advance w1 0 0 []
                               [Console ("Distance: -1.00 cm" ++ LF); Sleep_ms 1000]))
  /\ (clock_advances w ->
      forall n, exists fuel vs,
        List.length vs = n
        /\ actions (board_of (exec fuel main w))
           = actions w ++ startup
             ++ flat_map (fun v => trigger_pulse
                            ++ [Console (distance_line v); Sleep_ms 1000]) vs).
Proof.
  assert (Hturn : forall w0 v w1, reading w0 v w1 ->
            exists c, forall m,
              exec (c + m) main_loop w0
              = exec m main_loop
                     (advance w1 0 0 [] [Console (distance_line v); Sleep_ms 1000])).
  { intros w0 v w1 H. apply reading_returns in H.
    exact (forever_again main_cycle _ _ _ (main_cycle_returns _ _ _ H)). }
  split; [|split; [|split; [|split; [|split; [|split]]]]].
  - intros m. apply exec_startup.
  - intros w0 v w1 H. eapply cycles_S; [exact H|apply cycles_O].
  - intros n w0 w' H. split; [now apply main_loop_cycles with (n := n)|].
    now apply cycles_actions.
  - intros fuel.
    destruct (Nat.lt_ge_cases fuel 7) as [Hlt|Hge].
    + unfold main.
      do 7 (destruct fuel as [|fuel];
            [eexists; reflexivity|rewrite exec_bind_trigger; cbn [handle fst snd]]).
      lia.
    + replace fuel with (7 + (fuel - 7))%nat by lia. rewrite exec_startup.
      apply forever_running.
  - exact Hturn.
  - intros w0 Hf. destruct (failed_reading w0 Hf) as [w1 Hr].
    destruct (Hturn w0 minus_one w1 Hr) as [c Hc].
    exists w1, c. split.
    + exact (returns_actions _ _ _ (reading_returns _ _ _ Hr)).
    + intros m. rewrite (Hc m). now rewrite distance_line_minus_one.
  - intros Hc n.
    destruct (cycles_exist n (advance w 0 0 [] startup)) as [w' Hw'].
    { now apply clock_advances_advance. }
    destruct (main_loop_cycles n _ _ Hw') as [c Hcy].
    destruct (cycles_actions n _ _ Hw') as (vs & Hl & Ha).
    exists (7 + (c + 0))%nat, vs. split; [exact Hl|].
    rewrite exec_startup, Hcy. cbn [exec board_of].
    rewrite Ha. cbn [advance actions]. now rewrite <- app_assoc.
Qed.

Lemma main_repeats_forever_witness :
  clock_advances (square_board 3 100) /\
  exists fuel vs,
    List.length vs = 3%nat
    /\ actions (board_of (exec fuel main (square_board 3 100)))
       = actions (square_board 3 100) ++ startup
         ++ flat_map (fun v => trigger_pulse
                        ++ [Console (distance_line v); Sleep_ms 1000]) vs.
Proof.
  assert (Hc : clock_advances (square_board 3 100)).
  { intros k. cbn [square_board timer_script ticks Nat.add]. lia. }
  split; [exact Hc|].
  exact (proj2 (proj2 (proj2 (proj2 (proj2 (proj2
           (main_repeats_forever (square_board 3 100))))))) Hc 3%nat).
Defined.

(** C8.  Two calls that meet the same echo samples and timers running alike,
    possibly at different absolute times and with different histories,
    return the same value; and a call returns at most one value. *)
Theorem same_inputs_same_reading (shift : Z) (w1 w2 w1' : board) (r : spec_float) :
  same_inputs shift w1 w2 ->
  returns get_reading_sensor w1 r w1' ->
  (exists w2', returns get_reading_sensor w2 r w2')
  /\ (forall r2 w2', returns get_reading_sensor w2 r2 w2' -> r2 = r).
Proof.
  intros Hs H.
  assert (H2 : exists w2', returns get_reading_sensor w2 r w2').
  { apply returns_reading in H.
    destruct (same_reading shift w1 w2 Hs r w1' H) as [w2' H2].
    exists w2'. now apply reading_returns. }
  split; [exact H2|].
  destruct H2 as [w2' H2]. intros r2 w2'' H3.
  now destruct (returns_det _ _ _ _ _ _ H3 H2).
Qed.

Lemma same_inputs_same_reading_witness :
  same_inputs 1000000 (pulse_board 580) later_board /\
  exists w2', returns get_reading_sensor later_board (distance_of_duration 580) w2'.
Proof.
  assert (Hs : same_inputs 1000000 (pulse_board 580) later_board).
  { split; intros k; reflexivity. }
  split; [exact Hs|].
  refine (proj1 (same_inputs_same_reading 1000000 (pulse_board 580) later_board
                   (advance (pulse_board 580) 4 6 [100; 680] trigger_pulse)
                   (distance_of_duration 580) Hs _)).
  exists 100%nat. vm_compute. reflexivity.
Defined.

(** C9.  The comparisons with the timeout are strict, in each wait on its
    own.  First wait: if its last timer read is exactly 38000 us past the
    end of the trigger pulse and the next poll finds the line high, the
    call does not leave through the first timeout.  It takes the start
    timestamp and goes on to the second wait: when that one sees the fall
    the call returns the range-checked conversion of the difference of the
    two timestamps, and when that one times out the call returns -1.0 with
    the start timestamp captured.  Second wait: after any rise, if its last
    timer read is exactly 38000 us past the read that armed it and the next
    poll finds the line low, the call does not leave through the second
    timeout: it takes the end timestamp and returns the range-checked
    conversion of the difference. *)
Theorem edge_at_exactly_timeout (w : board) :
  (forall n1,
     keeps_waiting negb w 0 1 (us32_at w 0) n1 = true ->
     echo_at w n1 = false ->
     sub_u32 (us32_at w (1 + n1)) (us32_at w 0) = 38000 ->
     echo_at w (n1 + 1) = true ->
     (forall n2,
        sees_edge (fun level => level) w (n1 + 2) (n1 + 4) (us32_at w (n1 + 3)) n2 = true ->
        returns get_reading_sensor w
                (checked (distance_of_duration (pulse_us w (n1 + 1) n2)))
                (advance w (n1 + 1 + n2 + 2) (n1 + 1 + n2 + 4)
                         [start_stamp w (n1 + 1); end_stamp w (n1 + 1) n2] trigger_pulse))
     /\ (forall n2,
          times_out (fun level => level) w (n1 + 2) (n1 + 4) (us32_at w (n1 + 3)) n2 = true ->
          returns get_reading_sensor w minus_one
                  (advance w (n1 + 1 + n2 + 2) (n1 + 1 + n2 + 4)
                           [start_stamp w (n1 + 1)] trigger_pulse)))
  /\ (forall n1 n2,
       echo_rises w n1 = true ->
       keeps_waiting (fun level => level) w (n1 + 1) (n1 + 3) (us32_at w (n1 + 2)) n2 = true ->
       echo_at w (n1 + 1 + n2) = true ->
       sub_u32 (us32_at w (n1 + 3 + n2)) (us32_at w (n1 + 2)) = 38000 ->
       echo_at w (n1 + 1 + n2 + 1) = false ->
       returns get_reading_sensor w
               (checked (distance_of_duration (pulse_us w n1 (n2 + 1))))
               (advance w (n1 + (n2 + 1) + 2) (n1 + (n2 + 1) + 4)
                        [start_stamp w n1; end_stamp w n1 (n2 + 1)] trigger_pulse)).
Proof.
  split.
  - intros n1 K1 L1 T1 E1.
    assert (Hr : echo_rises w (n1 + 1) = true).
    { unfold echo_rises, sees_edge. rewrite keeps_waiting_snoc.
      cbn [Nat.add] in T1 |- *. rewrite K1, L1, T1.
      replace (S n1) with (n1 + 1)%nat in E1 |- * by lia.
      rewrite E1. reflexivity. }
    split; intros n2 H2.
    + apply reading_returns, reading_pulse.
      unfold echo_falls. rewrite Hr.
      replace (n1 + 1 + 1)%nat with (n1 + 2)%nat by lia.
      replace (n1 + 1 + 3)%nat with (n1 + 4)%nat by lia.
      replace (n1 + 1 + 2)%nat with (n1 + 3)%nat by lia.
      now rewrite H2.
    + apply reading_returns, reading_echo_stuck.
      unfold echo_stuck. rewrite Hr.
      replace (n1 + 1 + 1)%nat with (n1 + 2)%nat by lia.
      replace (n1 + 1 + 3)%nat with (n1 + 4)%nat by lia.
      replace (n1 + 1 + 2)%nat with (n1 + 3)%nat by lia.
      now rewrite H2.
  - intros n1 n2 Hr K2 L2 T2 E2.
    apply reading_returns, reading_pulse.
    unfold echo_falls, sees_edge. rewrite Hr, keeps_waiting_snoc.
    replace (n1 + 1 + (n2 + 1))%nat with (n1 + 1 + n2 + 1)%nat by lia.
    rewrite K2, L2, T2, E2. reflexivity.
Qed.

Lemma edge_at_exactly_timeout_witness :
  (sub_u32 (us32_at rise_brink_board 1) (us32_at rise_brink_board 0) = 38000
   /\ returns get_reading_sensor rise_brink_board (distance_of_duration 580)
              (advance rise_brink_board 4 6 [38010; 38590] trigger_pulse)
   /\ (to_Q (distance_of_duration 580) == 10)%Q)
  /\ (sub_u32 (us32_at brink_board 4) (us32_at brink_board 3) = 38000
      /\ returns get_reading_sensor brink_board
                 (checked (distance_of_duration (pulse_us brink_board 1 1)))
                 (advance brink_board 4 6 [38010; 76030] trigger_pulse)).
Proof.
  split.
  - split; [reflexivity|]. split; [|reflexivity].
    apply (proj1 (proj1 (edge_at_exactly_timeout rise_brink_board) 0%nat
                        eq_refl eq_refl eq_refl eq_refl) 1%nat).
    reflexivity.
  - split; [reflexivity|].
    apply (proj2 (edge_at_exactly_timeout brink_board) 1%nat 0%nat); reflexivity.
Defined.

(** C10.  Whatever a call returns is either the sentinel -1.0 or a distance
    [v] with [1.0 <= v <= 400.0], as the C comparison on [double] sees it
    and as an exact rational. *)
Theorem reading_is_sentinel_or_in_range (w w' : board) (r : spec_float) :
  returns get_reading_sensor w r w' ->
  (r = minus_one /\ (to_Q r == -1)%Q)
  \/ (dle d1 (double_of_float r) = true /\ dle (double_of_float r) d400 = true
      /\ (1 <= to_Q r)%Q /\ (to_Q r <= 400)%Q).
Proof.
  intros H. apply returns_reading in H.
  destruct H as [n H|n1 n2 H|n1 n2 H].
  - left. split; [reflexivity|apply minus_one_value].
  - left. split; [reflexivity|apply minus_one_value].
  - destruct (checked_cases (pulse_us w n1 n2)) as [->|[-> Hd]].
    + left. split; [reflexivity|apply minus_one_value].
    + right. apply accepted_in_range in Hd. unfold accepted in Hd.
      apply andb_prop in Hd as [Hd _]. apply andb_prop in Hd as [Hd Q4].
      apply andb_prop in Hd as [Hd Q1]. apply andb_prop in Hd as [Hd D4].
      apply andb_prop in Hd as [_ D1].
      repeat split; try assumption; now apply Qleb_le.
Qed.

Lemma reading_is_sentinel_or_in_range_witness :
  returns get_reading_sensor (pulse_board 580) (distance_of_duration 580)
          (advance (pulse_board 580) 4 6 [100; 680] trigger_pulse) /\
  ((distance_of_duration 580 = minus_one /\ (to_Q (distance_of_duration 580) == -1)%Q)
   \/ (dle d1 (double_of_float (distance_of_duration 580)) = true
       /\ dle (double_of_float (distance_of_duration 580)) d400 = true
       /\ (1 <= to_Q (distance_of_duration 580))%Q
       /\ (to_Q (distance_of_duration 580) <= 400)%Q)).
Proof.
  assert (H : returns get_reading_sensor (pulse_board 580) (distance_of_duration 580)
                      (advance (pulse_board 580) 4 6 [100; 680] trigger_pulse)).
  { exists 100%nat. vm_compute. reflexivity. }
  split; [exact H|].
  exact (reading_is_sentinel_or_in_range (pulse_board 580) _ _ H).
Defined.

(* ===================================================================== *)
(** ** Further properties *)
(* ===================================================================== *)

(** X1.  The timeouts do what the source says they are for: on a board whose
    timer moves on, a call returns whatever the echo line does, and each of
    its two waits ends within 38001 polls.  Either the first wait polls
    [n + 1 <= 38001] times and times out; or it polls [n1 + 1 <= 38001]
    times and sees the rise, and the second wait polls [n2 + 1 <= 38001]
    times before it times out or sees the fall.  The polls of the two waits
    are all the reads of the echo pin the call makes, hence at most 76002,
    with at most 76004 accesses to the timer. *)
Theorem get_reading_sensor_returns (w : board) :
  clock_advances w ->
  exists r w',
    returns get_reading_sensor w r w'
    /\ ((exists n,
           Z.of_nat (n + 1) <= 38001
           /\ no_echo w n = true
           /\ reads w' = (reads w + (n + 1))%nat
           /\ ticks w' = (ticks w + (n + 2))%nat)
        \/ (exists n1 n2,
              Z.of_nat (n1 + 1) <= 38001
              /\ Z.of_nat (n2 + 1) <= 38001
              /\ echo_rises w n1 = true
              /\ (echo_stuck w n1 n2 = true \/ echo_falls w n1 n2 = true)
              /\ reads w' = (reads w + (n1 + 1) + (n2 + 1))%nat
              /\ ticks w' = (ticks w + (n1 + 2) + (n2 + 2))%nat))
    /\ Z.of_nat (reads w') <= Z.of_nat (reads w) + 76002
    /\ Z.of_nat (ticks w') <= Z.of_nat (ticks w) + 76004.
Proof.
  intros Hc. destruct (reading_exists w Hc) as (r & w' & Hr & Hb).
  exists r, w'. split; [now apply reading_returns|].
  unfold echo_timeout in Hb.
  destruct Hb as [(n & Hn & He & Hp & Ht)|(n1 & n2 & Hn1 & Hn2 & Hr1 & He & Hp & Ht)].
  - split; [left; exists n; repeat split; try assumption; lia|]. lia.
  - split; [right; exists n1, n2; repeat split; try assumption; lia|]. lia.
Qed.

Lemma get_reading_sensor_returns_witness :
  clock_advances (square_board 3 100) /\
  exists r w',
    returns get_reading_sensor (square_board 3 100) r w'
    /\ ((exists n,
           Z.of_nat (n + 1) <= 38001
           /\ no_echo (square_board 3 100) n = true
           /\ reads w' = (reads (square_board 3 100) + (n + 1))%nat
           /\ ticks w' = (ticks (square_board 3 100) + (n + 2))%nat)
        \/ (exists n1 n2,
              Z.of_nat (n1 + 1) <= 38001
              /\ Z.of_nat (n2 + 1) <= 38001
              /\ echo_rises (square_board 3 100) n1 = true
              /\ (echo_stuck (square_board 3 100) n1 n2 = true
                  \/ echo_falls (square_board 3 100) n1 n2 = true)
              /\ reads w' = (reads (square_board 3 100) + (n1 + 1) + (n2 + 1))%nat
              /\ ticks w' = (ticks (square_board 3 100) + (n1 + 2) + (n2 + 2))%nat))
    /\ Z.of_nat (reads w') <= Z.of_nat (reads (square_board 3 100)) + 76002
    /\ Z.of_nat (ticks w') <= Z.of_nat (ticks (square_board 3 100)) + 76004.
Proof.
  assert (Hc : clock_advances (square_board 3 100)).
  { intros k. cbn [square_board timer_script ticks Nat.add]. lia. }
  split; [exact Hc|]. exact (get_reading_sensor_returns (square_board 3 100) Hc).
Defined.

(** X2.  On a board whose timer moves on, the main loop cannot hang: for
    every [n] there is a moment at which [main] has played its start-up and
    [n] complete turns of trigger pulse, console line and pause. *)
Theorem main_completes_every_cycle (w : board) (n : nat) :
  clock_advances w ->
  exists fuel vs,
    List.length vs = n
    /\ actions (board_of (exec fuel main w))
       = actions w ++ startup
         ++ flat_map (fun v => trigger_pulse
                        ++ [Console (distance_line v); Sleep_ms 1000]) vs.
Proof.
  intros Hc.
  destruct (cycles_exist n (advance w 0 0 [] startup)) as [w' Hw'].
  { now apply clock_advances_advance. }
  destruct (main_loop_cycles n _ _ Hw') as [c Hcy].
  destruct (cycles_actions n _ _ Hw') as (vs & Hl & Ha).
  exists (7 + (c + 0))%nat, vs. split; [exact Hl|].
  rewrite exec_startup, Hcy. cbn [exec board_of].
  rewrite Ha. cbn [advance actions]. now rewrite <- app_assoc.
Qed.

Lemma main_completes_every_cycle_witness :
  clock_advances (square_board 3 100) /\
  exists fuel vs,
    List.length vs = 3%nat
    /\ actions (board_of (exec fuel main (square_board 3 100)))
       = actions (square_board 3 100) ++ startup
         ++ flat_map (fun v => trigger_pulse
                        ++ [Console (distance_line v); Sleep_ms 1000]) vs.
Proof.
  assert (Hc : clock_advances (square_board 3 100)).
  { intros k. cbn [square_board timer_script ticks Nat.add]. lia. }
  split; [exact Hc|]. exact (main_completes_every_cycle (square_board 3 100) 3 Hc).
Defined.

(* ===================================================================== *)
(** ** Further properties: what the driver does to the outside world *)
(* ===================================================================== *)

(** Whatever the program, running it only adds actions. *)
Lemma actions_grow {R : Type} (n : nat) :
  forall (t : itree hwE R) (w : board),
    exists l, actions (board_of (exec n t w)) = actions w ++ l.
Proof.
  induction n as [|n IH]; intros t w.
  - exists []. cbn [exec board_of]. now rewrite app_nil_r.
  - rewrite exec_S. destruct (observe t) as [r|t'|X e k].
    + exists []. cbn [board_of]. now rewrite app_nil_r.
    + apply IH.
    + assert (He : exists l0, actions (snd (handle e w)) = actions w ++ l0).
      { destruct e; cbn [handle snd act read_pin read_timer_32 read_timer_64 actions];
          try (eexists; reflexivity); exists []; now rewrite app_nil_r. }
      destruct He as [l0 He]. destruct (handle e w) as [x w1]. cbn [snd] in He.
      destruct (IH (k x) w1) as [l1 H1]. exists (l0 ++ l1).
      now rewrite H1, He, app_assoc.
Qed.

Section Emits.

Variable ok : action -> Prop.
Variable fuel : nat.

Lemma emits_ret {R : Type} (r : R) : emits ok fuel (Ret r : itree hwE R).
Proof.
  intros [|n] w _; exists []; cbn [exec board_of]; now rewrite app_nil_r.
Qed.

Lemma emits_bind {R U : Type} (t : itree hwE R) (k : R -> itree hwE U) :
  emits ok fuel t -> (forall x, emits ok fuel (k x)) -> emits ok fuel (t >>= k).
Proof.
  intros Ht Hk n w Hn.
  destruct (exec_bind_cases k n t w) as [(w1 & H1 & H2)|(c & x & w1 & Hc & _ & H0 & H2)].
  - rewrite H2. destruct (Ht n w Hn) as (l & Hl & Hok). rewrite H1 in Hl.
    now exists l.
  - replace n with (c + (n - c))%nat by lia. rewrite H2.
    destruct (Ht c w ltac:(lia)) as (l1 & Hl1 & Hok1). rewrite H0 in Hl1.
    destruct (Hk x (n - c)%nat w1 ltac:(lia)) as (l2 & Hl2 & Hok2).
    cbn [board_of] in Hl1. exists (l1 ++ l2). split.
    + now rewrite Hl2, Hl1, app_assoc.
    + now apply Forall_app.
Qed.

Lemma emits_trigger {R : Type} (e : hwE R) :
  (forall w, exists l, actions (snd (handle e w)) = actions w ++ l /\ Forall ok l) ->
  emits ok fuel (ITree.trigger e).
Proof.
  intros He [|[|n]] w _.
  - exists []. cbn [exec board_of]. now rewrite app_nil_r.
  - rewrite exec_S. simpl observe. cbv iota. destruct (He w) as (l & Hl & Hok).
    destruct (handle e w) as [x w1]. now exists l.
  - rewrite exec_trigger. apply He.
Qed.

Lemma emits_forever {R : Type} (body : itree hwE R) :
  emits ok fuel body -> emits ok fuel (ITree.forever body : itree hwE Z).
Proof.
  intros Hb n. induction n as [n IH] using lt_wf_ind. intros w Hn.
  rewrite exec_forever.
  destruct (exec_bind_cases (fun _ : R => Tau (ITree.forever body : itree hwE Z)) n body w)
    as [(w1 & H1 & H2)|(c & x & w1 & Hc & _ & H0 & H2)].
  - rewrite H2. destruct (Hb n w Hn) as (l & Hl & Hok). rewrite H1 in Hl. now exists l.
  - replace n with (c + (n - c))%nat by lia. rewrite H2.
    destruct (Hb c w ltac:(lia)) as (l1 & Hl1 & Hok1). rewrite H0 in Hl1.
    cbn [board_of] in Hl1.
    destruct (n - c)%nat as [|m] eqn:Em.
    + now exists l1.
    + rewrite exec_tau. destruct (IH m ltac:(lia) w1 ltac:(lia)) as (l2 & Hl2 & Hok2).
      exists (l1 ++ l2). split; [now rewrite Hl2, Hl1, app_assoc|now apply Forall_app].
Qed.

End Emits.

Lemma permitted_trigger_pulse : Forall permitted trigger_pulse.
Proof.
  unfold trigger_pulse.
  repeat (apply Forall_cons; [cbn [permitted]; auto|]). apply Forall_nil.
Qed.

Lemma emits_get_reading_sensor (fuel : nat) : emits permitted fuel get_reading_sensor.
Proof.
  intros n w _. exists (firstn n trigger_pulse). split; [apply actions_during_call|].
  pose proof permitted_trigger_pulse as H.
  rewrite Forall_forall in *. intros a Ha. apply H.
  rewrite <- (firstn_skipn n trigger_pulse). apply in_or_app. now left.
Qed.

Lemma emits_act (fuel : nat) {R : Type} (e : hwE R) (a : action) :
  (forall w, snd (handle e w) = act a w) -> permitted a -> emits permitted fuel (ITree.trigger e).
Proof.
  intros He Ha. apply emits_trigger. intros w. exists [a]. rewrite He.
  split; [reflexivity|]. now constructor.
Qed.

Lemma emits_main (fuel : nat) : emits permitted fuel main.
Proof.
  unfold main.
  repeat (apply emits_bind;
          [eapply emits_act; [intros w0; reflexivity|cbn [permitted]; auto]|intros _]).
  apply emits_forever. unfold main_cycle.
  apply emits_bind; [apply emits_get_reading_sensor|intros v].
  repeat (apply emits_bind;
          [eapply emits_act; [intros w0; reflexivity|cbn [permitted]; auto]|intros _]).
  eapply emits_act; [intros w0; reflexivity|cbn [permitted]; auto].
Qed.

(** X3.  At every moment of every run of [main], all it has done to the
    outside world is initialise and direct its two pins (trigger as output,
    echo as input), drive the trigger pin, sleep for 2 us, 10 us, 200 ms or
    1000 ms, and print.  In particular no pin but the trigger pin is ever
    driven, and the echo pin is never made an output. *)
Theorem main_only_drives_trigger (w : board) (fuel : nat) :
  exists l,
    actions (board_of (exec fuel main w)) = actions w ++ l
    /\ Forall permitted l
    /\ (forall p, p <> TRIG_PIN -> writes_to p l = [])
    /\ ~ In (Gpio_dir ECHO_PIN GPIO_OUT) l.
Proof.
  destruct (emits_main fuel fuel w (Nat.le_refl _)) as (l & Hl & Hok).
  exists l. split; [exact Hl|]. split; [exact Hok|]. split.
  - intros p Hp. clear Hl. induction l as [|a l IH]; [reflexivity|].
    inversion Hok as [|a' l' Ha Hrest]; subst.
    destruct a; cbn [writes_to]; try (now apply IH).
    cbn [permitted] in Ha. subst gpio.
    destruct (Z.eqb_spec TRIG_PIN p) as [E|_]; [now elim Hp|now apply IH].
  - intros Hin. rewrite Forall_forall in Hok. apply Hok in Hin.
    cbn [permitted] in Hin. destruct Hin as [[E _]|[_ E]]; discriminate E.
Qed.

Lemma prefix_before (a : action) (s l l1 l2 : list action) :
  ~ In a s -> s ++ l = l1 ++ a :: l2 -> exists l0, l1 = s ++ l0.
Proof.
  revert l1. induction s as [|b s IH]; intros l1 Hn H.
  - now exists l1.
  - destruct l1 as [|c l1].
    + cbn [app] in H. inversion H; subst. elim Hn. now left.
    + cbn [app] in H. inversion H; subst.
      destruct (IH l1) as [l0 ->]; [intros Hi; apply Hn; now right|assumption|].
      now exists l0.
Qed.

(** X4.  At every moment of a run of [main], what it has done begins with
    its start-up, in the order of the source: console, 200 ms, both pins
    initialised and directed, banner.  Nothing else is done before all of
    that is: whenever the trigger pin is driven, the complete start-up,
    with the direction of both pins, lies before it. *)
Theorem main_starts_up_first (w : board) (fuel : nat) :
  exists l,
    actions (board_of (exec fuel main w)) = actions w ++ firstn fuel startup ++ l
    /\ ((fuel < 7)%nat -> l = [])
    /\ (forall l1 p v l2,
          firstn fuel startup ++ l = l1 ++ Gpio_put p v :: l2 ->
          exists l0, l1 = startup ++ l0).
Proof.
  assert (Hno : forall p v, ~ In (Gpio_put p v) startup).
  { intros p v Hin. unfold startup in Hin. cbn [In] in Hin.
    repeat (destruct Hin as [Hin|Hin]; [discriminate Hin|]). exact Hin. }
  destruct (Nat.lt_ge_cases fuel 7) as [H|H].
  - exists []. split; [|split; [reflexivity|]].
    + rewrite app_nil_r. unfold main.
      do 7 (destruct fuel as [|fuel];
            [cbn [exec board_of]; rewrite ?act_advance, ?advance_advance; simpl;
             rewrite ?app_nil_r; reflexivity
            |rewrite exec_bind_trigger; cbn [handle fst snd]]).
      lia.
    + intros l1 p v l2 E. exfalso. apply (Hno p v).
      rewrite <- (firstn_skipn fuel startup). apply in_or_app. left.
      rewrite app_nil_r in E. rewrite E. apply in_or_app. right. now left.
  - destruct (actions_grow (fuel - 7) main_loop (advance w 0 0 [] startup)) as [l Hl].
    exists l. split; [|split; [lia|]].
    + assert (E : exec fuel main w = exec (fuel - 7) main_loop (advance w 0 0 [] startup)).
      { rewrite <- exec_startup. f_equal. lia. }
      rewrite E, Hl. cbn [advance actions].
      rewrite firstn_all2 by (simpl; lia). now rewrite <- app_assoc.
    + intros l1 p v l2 E. rewrite firstn_all2 in E by (simpl; lia).
      apply (prefix_before (Gpio_put p v) startup l l1 l2 (Hno p v) E).
Qed.

(* ===================================================================== *)
(** ** Further properties: what a reading says about the pulse *)
(* ===================================================================== *)

Lemma accepted_not_sentinel (d : Z) :
  58 <= d <= 23200 -> distance_of_duration d <> minus_one.
Proof.
  intros H E. apply accepted_in_range in H. unfold accepted in H.
  apply andb_prop in H as [H _]. apply andb_prop in H as [H _].
  apply andb_prop in H as [_ H]. rewrite E in H. vm_compute in H. discriminate H.
Qed.

(** X5.  The sentinel is unambiguous.  A call returns something other than
    -1.0 exactly when it saw both edges in time and the duration between its
    two timestamps is from 58 to 23200 us; the value is then the conversion
    of the difference of the two timestamps it captured. *)
Theorem valid_reading_iff (w w' : board) (r : spec_float) :
  returns get_reading_sensor w r w' ->
  (r <> minus_one <->
   exists n1 n2, echo_falls w n1 n2 = true /\ 58 <= pulse_us w n1 n2 <= 23200)
  /\ (r <> minus_one ->
      exists s e, captured w' = captured w ++ [s; e]
                  /\ r = float_of_double (ddiv (double_of_int (absolute_time_diff_us s e)) d58)).
Proof.
  intros H. pose proof (returns_reading _ _ _ H) as Hr. split; [split|].
  - intros Hne. destruct Hr as [n Hn|n1 n2 Hn|n1 n2 Hn]; try (now elim Hne).
    exists n1, n2. split; [exact Hn|].
    destruct (checked_cases (pulse_us w n1 n2)) as [E|[_ Hd]]; [now elim Hne|exact Hd].
  - intros (n1 & n2 & Hf & Hd) E. subst r.
    pose proof (reading_returns _ _ _ (reading_pulse w n1 n2 Hf)) as H2.
    rewrite (checked_in_range _ Hd) in H2.
    destruct (returns_det _ _ _ _ _ _ H H2) as [E _].
    now apply (accepted_not_sentinel _ Hd).
  - intros Hne. destruct Hr as [n Hn|n1 n2 Hn|n1 n2 Hn]; try (now elim Hne).
    exists (start_stamp w n1), (end_stamp w n1 n2). split; [reflexivity|].
    destruct (checked_cases (pulse_us w n1 n2)) as [E|[E _]]; [now elim Hne|exact E].
Qed.

Lemma valid_reading_iff_witness :
  returns get_reading_sensor (pulse_board 580) (distance_of_duration 580)
          (advance (pulse_board 580) 4 6 [100; 680] trigger_pulse) /\
  (distance_of_duration 580 <> minus_one <->
   exists n1 n2, echo_falls (pulse_board 580) n1 n2 = true
                 /\ 58 <= pulse_us (pulse_board 580) n1 n2 <= 23200).
Proof.
  assert (H : returns get_reading_sensor (pulse_board 580) (distance_of_duration 580)
                      (advance (pulse_board 580) 4 6 [100; 680] trigger_pulse)).
  { exists 100%nat. vm_compute. reflexivity. }
  split; [exact H|].
  exact (proj1 (valid_reading_iff (pulse_board 580) _ _ H)).
Defined.

(** X6.  A call entered while the echo line is already high does not wait
    and cannot time out in the first loop, however late the timer is: it
    takes its start timestamp at its second timer access and measures what
    is left of the pulse. *)
Theorem echo_already_high (w w' : board) (r : spec_float) :
  echo_at w 0 = true ->
  returns get_reading_sensor w r w' ->
  exists rest,
    captured w' = captured w ++ us64_at w 1 :: rest
    /\ (rest = [] \/ exists n2, rest = [us64_at w (n2 + 3)]).
Proof.
  intros He H. apply returns_reading in H.
  assert (Hrise : forall n1, echo_rises w n1 = true -> n1 = 0%nat).
  { intros n1 Hn. destruct n1 as [|n1]; [reflexivity|]. exfalso.
    unfold echo_rises, sees_edge in Hn. apply andb_prop in Hn as [Hk _].
    destruct (keeps_waiting_elim _ _ _ _ _ _ 0 Hk ltac:(lia)) as [Hc _].
    cbn [Nat.add] in Hc. rewrite He in Hc. discriminate Hc. }
  destruct H as [n Hn|n1 n2 Hn|n1 n2 Hn].
  - exfalso. unfold no_echo, times_out in Hn.
    apply andb_prop in Hn as [Hn _]. apply andb_prop in Hn as [Hk Hc].
    destruct n as [|n].
    + cbn [Nat.add] in Hc. rewrite He in Hc. discriminate Hc.
    + destruct (keeps_waiting_elim _ _ _ _ _ _ 0 Hk ltac:(lia)) as [Hc0 _].
      cbn [Nat.add] in Hc0. rewrite He in Hc0. discriminate Hc0.
  - apply andb_prop in Hn as [Hr _]. apply Hrise in Hr. subst n1.
    exists []. split; [reflexivity|now left].
  - apply andb_prop in Hn as [Hr _]. apply Hrise in Hr. subst n1.
    exists [end_stamp w 0 n2]. split; [reflexivity|]. right. exists n2. reflexivity.
Qed.

Lemma echo_already_high_witness :
  echo_at stuck_board 0 = true /\
  exists rest,
    captured (advance stuck_board 40 42 [1000] trigger_pulse)
    = captured stuck_board ++ us64_at stuck_board 1 :: rest
    /\ (rest = [] \/ exists n2, rest = [us64_at stuck_board (n2 + 3)]).
Proof.
  split; [reflexivity|].
  apply (echo_already_high stuck_board _ minus_one); [reflexivity|].
  exists 200%nat. vm_compute. reflexivity.
Defined.

(* ===================================================================== *)
(** ** Further properties: the timer behind the 32-bit arithmetic *)
(* ===================================================================== *)

Section RealTime.

Variable w : board.
Hypothesis advancing : clock_advances w.

(** Reads the loop found within its timeout are truly within it. *)
Lemma in_time_real (s n : nat) :
  (forall k, (k < n)%nat ->
     sub_u32 (us32_at w (S s + k)) (us32_at w s) <= echo_timeout) ->
  forall k, (k <= n)%nat -> 0 <= timer_at w (s + k) - timer_at w s <= echo_timeout.
Proof.
  intros Hin k. induction k as [|k IH]; intros Hk.
  - rewrite Nat.add_0_r. unfold echo_timeout. lia.
  - specialize (IH ltac:(lia)). specialize (Hin k ltac:(lia)).
    pose proof (advancing (s + k)%nat) as Ha.
    pose proof (elapsed_grows w advancing s (S k)) as Hg.
    replace (S s + k)%nat with (s + S k)%nat in Hin by lia.
    rewrite (elapsed_exact w advancing) in Hin.
    + unfold timer_at. lia.
    + replace (s + S k)%nat with (S (s + k)) by lia.
      unfold timer_at, echo_timeout in *. lia.
Qed.

Lemma late_real (s n : nat) :
  (forall k, (k < n)%nat ->
     sub_u32 (us32_at w (S s + k)) (us32_at w s) <= echo_timeout) ->
  sub_u32 (us32_at w (S s + n)) (us32_at w s) = timer_at w (S s + n) - timer_at w s.
Proof.
  intros Hin. pose proof (in_time_real s n Hin n (Nat.le_refl n)) as Hn.
  pose proof (advancing (s + n)%nat) as Ha.
  replace (S s + n)%nat with (s + S n)%nat by lia.
  unfold timer_at in *. apply (elapsed_exact w advancing).
  replace (s + S n)%nat with (S (s + n)) by lia. unfold echo_timeout in *. lia.
Qed.

End RealTime.

(** On a board whose timer moves on, what the first loop computes on 32
    bits is what truly elapsed. *)
Lemma no_echo_real_time (w : board) (n : nat) :
  clock_advances w ->
  (no_echo w n = true <->
   (forall k, (k <= n)%nat -> echo_at w k = false)
   /\ (forall k, (k < n)%nat -> timer_at w (1 + k) - timer_at w 0 <= 38000)
   /\ timer_at w (1 + n) - timer_at w 0 > 38000).
Proof.
  intros Hc. unfold no_echo, times_out. split.
  - intros H. apply andb_prop in H as [H Hgt]. apply andb_prop in H as [Hk Hn].
    assert (Hin : forall k, (k < n)%nat ->
              sub_u32 (us32_at w (1 + k)) (us32_at w 0) <= echo_timeout).
    { intros k Hlt. now destruct (keeps_waiting_elim _ _ _ _ _ _ k Hk Hlt). }
    split; [|split].
    + intros k Hle. destruct (Nat.eq_dec k n) as [->|Hne].
      * cbn [Nat.add] in Hn. now apply negb_true_iff in Hn.
      * destruct (keeps_waiting_elim _ _ _ _ _ _ k Hk ltac:(lia)) as [Hcond _].
        cbn [Nat.add] in Hcond. now apply negb_true_iff in Hcond.
    + intros k Hlt. pose proof (in_time_real w Hc 0 n Hin (S k) ltac:(lia)) as Hr.
      cbn [Nat.add] in *. unfold echo_timeout in Hr. lia.
    + rewrite (late_real w Hc 0 n Hin) in Hgt. apply Z.gtb_lt in Hgt.
      unfold echo_timeout in Hgt. lia.
  - intros (He & Hin & Hlate).
    assert (Hin32 : forall k, (k < n)%nat ->
              sub_u32 (us32_at w (1 + k)) (us32_at w 0) <= echo_timeout).
    { intros k. induction k as [|k IH]; intros Hlt.
      - pose proof (Hin 0%nat Hlt) as H0. pose proof (Hc 0%nat) as Ha.
        unfold timer_at in *. rewrite Nat.add_0_r in *.
        pose proof (elapsed_exact w Hc 0 1) as Hx. cbn [Nat.add] in *.
        rewrite Hx; unfold echo_timeout; lia.
      - pose proof (Hin (S k) Hlt) as H1.
        pose proof (elapsed_grows w Hc 0 (1 + S k)) as Hg.
        pose proof (elapsed_exact w Hc 0 (1 + S k)) as Hx.
        unfold timer_at in *. cbn [Nat.add] in *.
        rewrite Hx; unfold echo_timeout; lia. }
    rewrite keeps_waiting_intro.
    + cbn [Nat.add andb]. rewrite (He n (Nat.le_refl n)). cbn [negb andb].
      apply Z.gtb_lt. pose proof (late_real w Hc 0 n Hin32) as Hx.
      cbn [Nat.add] in *. rewrite Hx. unfold echo_timeout. lia.
    + intros k Hlt. split; [|now apply Hin32].
      cbn [Nat.add]. rewrite (He k ltac:(lia)). reflexivity.
Qed.

(** A call that ends after [n + 1] polls without a timestamp has timed out
    in its first wait. *)
Lemma returns_without_stamp (w w' : board) (r : spec_float) (n : nat) :
  returns get_reading_sensor w r w' ->
  captured w' = captured w ->
  reads w' = (reads w + (n + 1))%nat ->
  no_echo w n = true.
Proof.
  intros H Hcap Hreads. apply returns_reading in H.
  destruct H as [n' H|n1 n2 H|n1 n2 H]; cbn [advance captured reads] in Hcap, Hreads.
  - replace n with n' by lia. exact H.
  - apply (f_equal (@List.length Z)) in Hcap. rewrite List.length_app in Hcap.
    cbn [List.length] in Hcap. lia.
  - apply (f_equal (@List.length Z)) in Hcap. rewrite List.length_app in Hcap.
    cbn [List.length] in Hcap. lia.
Qed.

(** X7.  The 32-bit elapsed time of the first loop is the true one, through
    a wrap of [time_us_32] as well: on a board whose timer moves on, a call
    returns -1.0 out of its first loop after [n + 1] polls, no timestamp
    captured, exactly when the echo line was low at polls [0] to [n], the
    timer was truly within 38000 us of the start at the reads before, and
    is truly beyond it at the last one. *)
Theorem first_wait_times_out_on_real_time (w : board) (n : nat) :
  clock_advances w ->
  ((exists w', returns get_reading_sensor w minus_one w'
               /\ captured w' = captured w
               /\ reads w' = (reads w + (n + 1))%nat
               /\ ticks w' = (ticks w + (n + 2))%nat)
   <->
   (forall k, (k <= n)%nat -> echo_at w k = false)
   /\ (forall k, (k < n)%nat -> timer_at w (1 + k) - timer_at w 0 <= 38000)
   /\ timer_at w (1 + n) - timer_at w 0 > 38000).
Proof.
  intros Hc. rewrite <- (no_echo_real_time w n Hc). split.
  - intros (w' & Hret & Hcap & Hreads & _).
    exact (returns_without_stamp w w' minus_one n Hret Hcap Hreads).
  - intros Hn. exists (advance w (n + 1) (n + 2) [] trigger_pulse).
    split; [apply reading_returns, reading_no_echo; exact Hn|].
    cbn [advance captured reads ticks]. rewrite app_nil_r. repeat split.
Qed.

Lemma first_wait_times_out_on_real_time_witness :
  clock_advances silent_board /\
  ((exists w', returns get_reading_sensor silent_board minus_one w'
               /\ captured w' = captured silent_board
               /\ reads w' = (reads silent_board + (38 + 1))%nat
               /\ ticks w' = (ticks silent_board + (38 + 2))%nat)
   <->
   (forall k, (k <= 38)%nat -> echo_at silent_board k = false)
   /\ (forall k, (k < 38)%nat -> timer_at silent_board (1 + k) - timer_at silent_board 0 <= 38000)
   /\ timer_at silent_board (1 + 38) - timer_at silent_board 0 > 38000).
Proof.
  assert (Hc : clock_advances silent_board).
  { intros k. cbn [silent_board timer_script ticks Nat.add]. lia. }
  split; [exact Hc|]. exact (first_wait_times_out_on_real_time silent_board 38 Hc).
Defined.

(** X8.  The duration is the true difference of the 64-bit timer between
    the two captures, sign included, whenever that difference fits
    [int64_t], through a wrap of the 64-bit value as well: a complete pulse
    returns the range-checked conversion of that difference. *)
Theorem reading_of_timer_difference (w : board) (n1 n2 : nat) :
  echo_falls w n1 n2 = true ->
  - 2 ^ 63 <= timer_at w (n1 + n2 + 3) - timer_at w (n1 + 1) < 2 ^ 63 ->
  pulse_us w n1 n2 = timer_at w (n1 + n2 + 3) - timer_at w (n1 + 1)
  /\ returns get_reading_sensor w
       (checked (distance_of_duration (timer_at w (n1 + n2 + 3) - timer_at w (n1 + 1))))
       (advance w (n1 + n2 + 2) (n1 + n2 + 4)
                [start_stamp w n1; end_stamp w n1 n2] trigger_pulse).
Proof.
  intros Hf Hb.
  assert (E : pulse_us w n1 n2 = timer_at w (n1 + n2 + 3) - timer_at w (n1 + 1)).
  { unfold pulse_us, absolute_time_diff_us, to_int64, start_stamp, end_stamp, us64_at, timer_at
      in *.
    set (b := timer_script w (ticks w + (n1 + n2 + 3))) in *.
    set (a := timer_script w (ticks w + (n1 + 1))) in *.
    rewrite <- Zplus_mod_idemp_l, Zminus_mod_idemp_l, Zminus_mod_idemp_r, Zplus_mod_idemp_l.
    rewrite Z.mod_small; lia. }
  split; [exact E|]. rewrite <- E. apply reading_returns. now apply reading_pulse.
Qed.

Lemma reading_of_timer_difference_witness :
  echo_falls (pulse_board 580) 1 1 = true /\
  pulse_us (pulse_board 580) 1 1
  = timer_at (pulse_board 580) (1 + 1 + 3) - timer_at (pulse_board 580) (1 + 1).
Proof.
  split; [reflexivity|].
  apply (reading_of_timer_difference (pulse_board 580) 1 1).
  - reflexivity.
  - vm_compute. split; [discriminate|reflexivity].
Defined.

Lemma timer_step (w : board) (step : Z) (k : nat) :
  clock_steps step w -> timer_at w (S k) - timer_at w k <= step.
Proof. intros H. apply (H k). Qed.

(** X9.  A call keeps the processor for at most two timeout windows and
    three timer steps: on a board whose timer moves on by at most [step] us
    per access, the timer at the last access of a call that returns is at
    most [2 * 38000 + 3 * step] us past the timer at its first. *)
Theorem call_latency_bound (w w' : board) (r : spec_float) (step : Z) :
  clock_advances w ->
  clock_steps step w ->
  returns get_reading_sensor w r w' ->
  timer_at w (ticks w' - ticks w - 1) - timer_at w 0 <= 2 * 38000 + 3 * step.
Proof.
  intros Hc Hs H. apply returns_reading in H.
  assert (Hstep : 1 <= step).
  { pose proof (Hc 0%nat). pose proof (Hs 0%nat). lia. }
  assert (First : forall n, keeps_waiting negb w 0 1 (us32_at w 0) n = true ->
                            timer_at w n - timer_at w 0 <= 38000).
  { intros n Hk.
    assert (Hin : forall k, (k < n)%nat ->
              sub_u32 (us32_at w (1 + k)) (us32_at w 0) <= echo_timeout).
    { intros k Hlt. now destruct (keeps_waiting_elim _ _ _ _ _ _ k Hk Hlt). }
    pose proof (in_time_real w Hc 0 n Hin n (Nat.le_refl n)) as Hr.
    cbn [Nat.add] in Hr. unfold echo_timeout in Hr. lia. }
  assert (Second : forall n1 n2,
            keeps_waiting (fun b => b) w (n1 + 1) (n1 + 3) (us32_at w (n1 + 2)) n2 = true ->
            timer_at w (n1 + 2 + n2) - timer_at w (n1 + 2) <= 38000).
  { intros n1 n2 Hk.
    assert (Hin : forall k, (k < n2)%nat ->
              sub_u32 (us32_at w (S (n1 + 2) + k)) (us32_at w (n1 + 2)) <= echo_timeout).
    { intros k Hlt. destruct (keeps_waiting_elim _ _ _ _ _ _ k Hk Hlt) as [_ Ht].
      replace (S (n1 + 2) + k)%nat with (n1 + 3 + k)%nat by lia. exact Ht. }
    pose proof (in_time_real w Hc (n1 + 2) n2 Hin n2 (Nat.le_refl n2)) as Hr.
    unfold echo_timeout in Hr. lia. }
  assert (Tail : forall n1 n2,
            timer_at w n1 - timer_at w 0 <= 38000 ->
            timer_at w (n1 + 2 + n2) - timer_at w (n1 + 2) <= 38000 ->
            timer_at w (n1 + n2 + 3) - timer_at w 0 <= 2 * 38000 + 3 * step).
  { intros n1 n2 H1 H2.
    pose proof (timer_step w step n1 Hs) as S1.
    pose proof (timer_step w step (S n1) Hs) as S2.
    pose proof (timer_step w step (n1 + 2 + n2) Hs) as S3.
    replace (S (S n1)) with (n1 + 2)%nat in S2 by lia.
    replace (S (n1 + 2 + n2)) with (n1 + n2 + 3)%nat in S3 by lia.
    lia. }
  destruct H as [n Hn|n1 n2 Hn|n1 n2 Hn]; cbn [advance ticks].
  - replace (ticks w + (n + 2) - ticks w - 1)%nat with (S n) by lia.
    unfold no_echo, times_out in Hn.
    apply andb_prop in Hn as [Hn _]. apply andb_prop in Hn as [Hk _].
    pose proof (First n Hk). pose proof (timer_step w step n Hs). lia.
  - replace (ticks w + (n1 + n2 + 4) - ticks w - 1)%nat with (n1 + n2 + 3)%nat by lia.
    unfold echo_stuck, echo_rises, sees_edge, times_out in Hn.
    apply andb_prop in Hn as [H1 H2]. apply andb_prop in H1 as [K1 _].
    apply andb_prop in H2 as [H2 _]. apply andb_prop in H2 as [K2 _].
    apply Tail; [now apply First|now apply Second].
  - replace (ticks w + (n1 + n2 + 4) - ticks w - 1)%nat with (n1 + n2 + 3)%nat by lia.
    unfold echo_falls, echo_rises, sees_edge in Hn.
    apply andb_prop in Hn as [H1 H2]. apply andb_prop in H1 as [K1 _].
    apply andb_prop in H2 as [K2 _].
    apply Tail; [now apply First|now apply Second].
Qed.

Lemma call_latency_bound_witness :
  clock_advances (square_board 3 100) /\
  clock_steps 100 (square_board 3 100) /\
  forall r w', returns get_reading_sensor (square_board 3 100) r w' ->
    timer_at (square_board 3 100) (ticks w' - ticks (square_board 3 100) - 1)
    - timer_at (square_board 3 100) 0 <= 2 * 38000 + 3 * 100.
Proof.
  assert (Hc : clock_advances (square_board 3 100)).
  { intros k. cbn [square_board timer_script ticks Nat.add]. lia. }
  assert (Hs : clock_steps 100 (square_board 3 100)).
  { intros k. cbn [square_board timer_script ticks Nat.add]. lia. }
  split; [exact Hc|]. split; [exact Hs|].
  intros r w'. exact (call_latency_bound (square_board 3 100) w' r 100 Hc Hs).
Defined.

(* ===================================================================== *)
(** ** Further properties: the conversion grows with the duration *)
(* ===================================================================== *)

Lemma Qltb_lt (a b : Q) : Qltb a b = true -> (a < b)%Q.
Proof. unfold Qltb, Qlt. apply Z.ltb_lt. Qed.

Lemma climbs_spec (n : nat) :
  forall prev lo, climbs prev lo n = true ->
    (forall d, lo <= d < lo + Z.of_nat n -> (prev < to_Q (distance_of_duration d))%Q)
    /\ (forall d d', lo <= d -> d < d' -> d' < lo + Z.of_nat n ->
          (to_Q (distance_of_duration d) < to_Q (distance_of_duration d'))%Q).
Proof.
  induction n as [|n IH]; intros prev lo H.
  - split; intros; lia.
  - cbn [climbs] in H. cbv zeta in H. apply andb_prop in H as [H0 H1].
    apply Qltb_lt in H0. destruct (IH _ _ H1) as [Ha Hb]. split.
    + intros d Hd. destruct (Z.eq_dec d lo) as [->|Hne]; [exact H0|].
      apply Qlt_trans with (to_Q (distance_of_duration lo)); [exact H0|].
      apply Ha. lia.
    + intros d d' Hlo Hlt Hhi. destruct (Z.eq_dec d lo) as [->|Hne].
      * apply Ha. lia.
      * apply Hb; lia.
Qed.

Lemma climbs_58_23200 : climbs 0 58 (Z.to_nat 23143) = true.
Proof. vm_cast_no_check (eq_refl true). Qed.

(** X10.  Over the accepted range the reading grows strictly with the echo
    duration: a pulse longer by as little as one microsecond reads as a
    larger distance, so no two durations from 58 to 23200 us share a
    reading. *)
Theorem reading_grows_with_duration (d d' : Z) :
  58 <= d -> d < d' -> d' <= 23200 ->
  (to_Q (float_of_double (ddiv (double_of_int d) d58))
   < to_Q (float_of_double (ddiv (double_of_int d') d58)))%Q
  /\ float_of_double (ddiv (double_of_int d) d58)
     <> float_of_double (ddiv (double_of_int d') d58).
Proof.
  intros Hlo Hlt Hhi. fold (distance_of_duration d) (distance_of_duration d').
  assert (H : (to_Q (distance_of_duration d) < to_Q (distance_of_duration d'))%Q).
  { apply (proj2 (climbs_spec _ _ _ climbs_58_23200)); lia. }
  split; [exact H|]. intros E. rewrite E in H. now apply Qlt_irrefl in H.
Qed.

Lemma reading_grows_with_duration_witness :
  (to_Q (float_of_double (ddiv (double_of_int 580) d58))
   < to_Q (float_of_double (ddiv (double_of_int 581) d58)))%Q.
Proof.
  apply (reading_grows_with_duration 580 581); lia.
Defined.
